(** * juce_TextLayout.cpp: a shallow embedding of the text-layout engine

    The development follows the source file top to bottom: the value types
    ([Range], [Point], [Glyph], [Run], [Line], [TextLayout]), the queries
    ([getLineBoundsX], [getHeight], [getLine]), the helper pipeline of
    [TextLayoutHelpers::TokenList] ([addTextRuns], [appendText],
    [layoutRuns], [createLayout]) and the two entry points [createLayout]
    and [createLayoutWithBalancedLineLengths].

    Conventions.
    - C++ [int] is [Z]; additions and subtractions go through [int_wrap]
      (two's complement on 32 bits).
    - C++ [float] is idealised as the rationals [Q]: every operation is
      exact, where binary32 rounds to nearest.  All concrete values used
      below are small integers or halves, which binary32 represents
      exactly.
    - [juce::String] is [string]; a character is an [ascii].
    - [OwnedArray<T>] and [Array<T>] are lists; [operator[]] is the
      bounds-checked lookup [!!], whose [None] is the null pointer;
      dereferencing a pointer is [dereference], which on the null pointer
      is [NullDereference], undefined behaviour.
    - The font provider, the default-constructed font and the platform's
      native layout backend are not part of the file: they are the classes
      [FontMetrics] and [NativeBackend]. *)

From Stdlib Require Import ZArith QArith Qround Lqa Lia String Ascii List Bool.
From stdpp Require Import base list.
Import ListNotations.

Local Open Scope Z_scope.

(** ** Machine integers *)

Definition int_wrap (z : Z) : Z := (z + 2 ^ 31) mod 2 ^ 32 - 2 ^ 31.
Definition int_add (a b : Z) : Z := int_wrap (a + b).
Definition int_sub (a b : Z) : Z := int_wrap (a - b).

(** ** Idealised floats *)

Abbreviation float := Q (only parsing).

Definition Qltb (a b : Q) : bool := (Qnum a * QDen b <? Qnum b * QDen a)%Z.

(** [(int) f]: truncation towards zero.  C++ defines the conversion only
    when the truncated value is in the range of [int]; outside it the
    model still gives the truncated value. *)
Definition float_to_int (f : float) : Z := Z.quot (Qnum f) (QDen f).

(** [(float) i]: exact, as every operation on the idealised floats is;
    binary32 rounds an [int] of more than 24 significant bits. *)
Definition int_to_float (i : Z) : float := inject_Z i.

(** [roundToInt] (juce_MathsFunctions.h, not part of the file): nearest
    integer, ties to even. *)
Definition roundToInt (f : float) : Z :=
  let fl := Qfloor f in
  let twice := (2 * (f - inject_Z fl))%Q in
  if Qltb twice 1 then fl
  else if Qltb 1 twice then fl + 1
  else if Z.even fl then fl else fl + 1.

(** ** The arithmetic the templates [jmin], [jmax] and [Range] rely on *)

Class Numeric (T : Type) := {
  num_zero : T;
  num_lt : T -> T -> bool;
  num_add : T -> T -> T;
  num_sub : T -> T -> T;
}.

#[export] Instance Numeric_int : Numeric Z :=
  {| num_zero := 0; num_lt := Z.ltb; num_add := int_add; num_sub := int_sub |}.

#[export] Instance Numeric_float : Numeric Q :=
  {| num_zero := 0%Q; num_lt := Qltb; num_add := Qplus; num_sub := Qminus |}.

(** [jmax (a, b)] is [(a < b) ? b : a]; [jmin (a, b)] is [(b < a) ? b : a]
    (juce_MathsFunctions.h). *)
Definition jmax {T} `{Numeric T} (a b : T) : T := if num_lt a b then b else a.
Definition jmin {T} `{Numeric T} (a b : T) : T := if num_lt b a then b else a.

(** ** Range<T> (juce_Range.h, not part of the file)

    The two-argument constructor stores [jmax (start, end)] as the end, so
    a range never has a negative length. *)

Record Range (T : Type) := mkRange { getStart : T; getEnd : T }.
Arguments mkRange {T} _ _.
Arguments getStart {T} _.
Arguments getEnd {T} _.

Section RangeOps.
Context {T : Type} `{Numeric T}.

Definition Range_empty : Range T := mkRange num_zero num_zero.

Definition Range_make (startValue endValue : T) : Range T :=
  mkRange startValue (jmax startValue endValue).

Definition getLength (r : Range T) : T := num_sub (getEnd r) (getStart r).

Definition getUnionWith (r other : Range T) : Range T :=
  Range_make (jmin (getStart r) (getStart other))
             (jmax (getEnd r) (getEnd other)).

(** [operator+ (amountToAdd)] *)
Definition Range_shift (r : Range T) (amountToAdd : T) : Range T :=
  Range_make (num_add (getStart r) amountToAdd)
             (num_add (getEnd r) amountToAdd).
End RangeOps.

(** ** Point<float>, Rectangle<int>, Colour *)

Record Point := mkPoint { pt_x : float; pt_y : float }.

Definition Point_translated (p : Point) (dx dy : float) : Point :=
  mkPoint (pt_x p + dx)%Q (pt_y p + dy)%Q.

Record Rectangle := mkRectangle { rect_x : Z; rect_y : Z; rect_w : Z; rect_h : Z }.

Definition Rectangle_setPosition (r : Rectangle) (x y : Z) : Rectangle :=
  mkRectangle x y (rect_w r) (rect_h r).

Definition Rectangle_getRight (r : Rectangle) : Z := int_add (rect_x r) (rect_w r).

Definition Rectangle_getPosition (r : Rectangle) : Point :=
  mkPoint (int_to_float (rect_x r)) (int_to_float (rect_y r)).

(** A colour is its 32-bit ARGB value. *)
Definition Colour := Z.
Definition defaultColour : Colour := 0xff000000.

(** ** Justification flags (juce_Justification.h) *)

Module Justification.
Definition left : Z := 1.
Definition right : Z := 2.
Definition horizontallyCentred : Z := 4.
Definition top : Z := 8.
Definition topLeft : Z := Z.lor left top.
End Justification.

Inductive ReadingDirection := natural | leftToRight | rightToLeft.

Definition ReadingDirection_eqb (a b : ReadingDirection) : bool :=
  match a, b with
  | natural, natural | leftToRight, leftToRight | rightToLeft, rightToLeft => true
  | _, _ => false
  end.

(** ** Characters and strings *)

Definition char_LF : ascii := "010"%char.
Definition char_CR : ascii := "013"%char.
Definition char_NUL : ascii := "000"%char.

(** [CharacterFunctions::isWhitespace]: the C locale's white space. *)
Definition isWhitespace (c : ascii) : bool :=
  let n := nat_of_ascii c in
  (Nat.eqb n 32 || (Nat.leb 9 n && Nat.leb n 13))%bool.

Fixpoint containsChar (s : string) (c : ascii) : bool :=
  match s with
  | EmptyString => false
  | String d rest => (Ascii.eqb d c || containsChar rest c)%bool
  end.

Definition isNotEmpty (s : string) : bool :=
  match s with EmptyString => false | String _ _ => true end.

Definition charToString (c : ascii) : string := String c EmptyString.

(** [s += c] *)
Definition appendChar (s : string) (c : ascii) : string := (s ++ charToString c)%string.

(** [String::trimEnd]: drops the trailing white space. *)
Fixpoint trimEnd (s : string) : string :=
  match s with
  | EmptyString => EmptyString
  | String c rest =>
      match trimEnd rest with
      | EmptyString => if isWhitespace c then EmptyString else charToString c
      | kept => String c kept
      end
  end.

(** [String::substring (start, end)]: both ends clamped to the string. *)
Definition substring (s : string) (startIndex endIndex : Z) : string :=
  let startIndex := Z.max 0 startIndex in
  if endIndex <=? startIndex then EmptyString
  else String.substring (Z.to_nat startIndex) (Z.to_nat (endIndex - startIndex)) s.

(** ** The platform: fonts and the native backend *)

Class FontMetrics (Font : Type) := {
  Font_eq_dec :: EqDecision Font;
  defaultFont : Font;
  getStringWidth : Font -> string -> Z;
  getHeight : Font -> float;
  getAscent : Font -> float;
  getDescent : Font -> float;
  (** glyph codes and x offsets; the offsets have one entry more than the
      glyphs, the last one being the end of the text *)
  getGlyphPositions : Font -> string -> list Z * list float;
}.

(** ** The layout tree: Glyph, Run, Line, TextLayout *)

Record Glyph := mkGlyph {
  glyphCode : Z;
  anchor : Point;
  glyph_width : float;
}.

Section DataModel.
Variable Font : Type.

Record Run := mkRun {
  run_font : Font;
  run_colour : Colour;
  run_glyphs : list Glyph;
  run_stringRange : Range Z;
}.

Record Line := mkLine {
  line_stringRange : Range Z;
  lineOrigin : Point;
  ascent : float;
  descent : float;
  leading : float;
  line_runs : list Run;
}.

Record TextLayout := mkTextLayout {
  lines : list Line;
  width : float;
  justification : Z;
}.

(** *** The attributed text (juce_AttributedString.h) *)

Record Attribute := mkAttribute {
  attr_range : Range Z;
  attr_getFont : option Font;
  attr_getColour : option Colour;
}.

Record AttributedString := mkAttributedString {
  getText : string;
  getJustification : Z;
  getReadingDirection : ReadingDirection;
  attributes : list Attribute;
}.

(** *** TextLayoutHelpers: FontAndColour, RunAttribute, Token

    [FontAndColour] keeps a pointer to its font: [fc_font] is [None] for
    the null pointer.  The members [line] and [lineHeight] of a [Token]
    are not initialised by its constructor; they start at 0 here. *)

Record FontAndColour := mkFontAndColour {
  fc_font : option Font;
  fc_colour : Colour;
}.

Record RunAttribute := mkRunAttribute {
  ra_fontAndColour : FontAndColour;
  ra_range : Range Z;
}.

Record Token := mkToken {
  tok_text : string;
  tok_font : Font;
  tok_colour : Colour;
  tok_area : Rectangle;
  tok_line : Z;
  tok_lineHeight : Z;
  tok_isWhitespace : bool;
  tok_isNewLine : bool;
}.
End DataModel.

Arguments mkRun {Font} _ _ _ _.
Arguments run_font {Font} _.
Arguments run_colour {Font} _.
Arguments run_glyphs {Font} _.
Arguments run_stringRange {Font} _.
Arguments mkLine {Font} _ _ _ _ _ _.
Arguments line_stringRange {Font} _.
Arguments lineOrigin {Font} _.
Arguments ascent {Font} _.
Arguments descent {Font} _.
Arguments leading {Font} _.
Arguments line_runs {Font} _.
Arguments mkTextLayout {Font} _ _ _.
Arguments lines {Font} _.
Arguments width {Font} _.
Arguments justification {Font} _.
Arguments mkAttribute {Font} _ _ _.
Arguments attr_range {Font} _.
Arguments attr_getFont {Font} _.
Arguments attr_getColour {Font} _.
Arguments mkAttributedString {Font} _ _ _ _.
Arguments getText {Font} _.
Arguments getJustification {Font} _.
Arguments getReadingDirection {Font} _.
Arguments attributes {Font} _.
Arguments mkFontAndColour {Font} _ _.
Arguments fc_font {Font} _.
Arguments fc_colour {Font} _.
Arguments mkRunAttribute {Font} _ _.
Arguments ra_fontAndColour {Font} _.
Arguments ra_range {Font} _.
Arguments mkToken {Font} _ _ _ _ _ _ _ _.
Arguments tok_text {Font} _.
Arguments tok_font {Font} _.
Arguments tok_colour {Font} _.
Arguments tok_area {Font} _.
Arguments tok_line {Font} _.
Arguments tok_lineHeight {Font} _.
Arguments tok_isWhitespace {Font} _.
Arguments tok_isNewLine {Font} _.

(** The platform's native layout backend ([createNativeLayout], defined
    per platform outside this file): it either fills in the lines of the
    layout or declines. *)
Class NativeBackend (Font : Type) :=
  createNativeLayout : AttributedString Font -> TextLayout Font -> option (list (Line Font)).

(** ** TextLayout::Line and TextLayout queries *)

Section Queries.
Context {Font : Type}.

(** The inner loop of [getLineBoundsX]: [j] runs from [size - 1] down to
    1, so [after] holds the glyphs of indices 1 and up. *)
Definition runBoundsX (first : Glyph) (after : list Glyph) : float * float :=
  let minX := pt_x (anchor first) in
  fold_left
    (fun acc glyph =>
       let x := pt_x (anchor glyph) in
       (jmin (fst acc) x, jmax (snd acc) (x + glyph_width glyph)%Q))
    (rev after) (minX, minX).

(** The body of the outer loop, on the pair [(range, isFirst)]. *)
Definition addRunBounds (acc : Range float * bool) (run : Run Font) : Range float * bool :=
  match run_glyphs run with
  | [] => acc
  | first :: after =>
      let '(minX, maxX) := runBoundsX first after in
      if snd acc then (Range_make minX maxX, false)
      else (getUnionWith (fst acc) (Range_make minX maxX), false)
  end.

Definition getLineBoundsX (line : Line Font) : Range float :=
  let '(range, _) := fold_left addRunBounds (rev (line_runs line)) (Range_empty, true) in
  Range_shift range (pt_x (lineOrigin line)).

Definition getNumLines (layout : TextLayout Font) : Z := Z.of_nat (length (lines layout)).

Definition getHeight_layout (layout : TextLayout Font) : float :=
  match last (lines layout) with
  | Some lastLine => (pt_y (lineOrigin lastLine) + descent lastLine)%Q
  | None => 0%Q
  end.

(** Modelled from the spec: [OwnedArray::operator[]] (juce_OwnedArray.h is
    not part of the file) is the bounds-checked indexed access of section
    4.5: the element for an index inside the array, and a failure, the
    null pointer [None], for any other index.  The source relies on it:
    the loop of [TokenList::createLayout] finds the last token by testing
    [tokens[i + 1]] against [nullptr]. *)
Definition OwnedArray_at {A} (a : list A) (index : Z) : option A :=
  if (0 <=? index) && (index <? Z.of_nat (length a)) then a !! Z.to_nat index else None.
End Queries.

(** ** Dereferencing a pointer

    What the evaluation of [*p] comes to: the object [p] points at, or,
    when [p] is the null pointer, a dereference of null.  That one is
    undefined behaviour: nothing is checked and nothing is signalled, the
    caller is handed a reference to no object. *)
Inductive Deref (A : Type) :=
| Object (a : A)
| NullDereference.
Arguments Object {A} _.
Arguments NullDereference {A}.

Definition dereference {A} (p : option A) : Deref A :=
  match p with
  | Some a => Object a
  | None => NullDereference
  end.

(** ** TextLayoutHelpers *)

Section Engine.
Context {Font : Type} `{FontMetrics Font} `{NativeBackend Font}.

(** *** FontAndColour::operator!=

    Two equal pointers point to equal fonts, so
    [font != other.font && *font != *other.font] is the inequality of the
    fonts pointed to. *)

Definition FontAndColour_ne (a b : FontAndColour Font) : bool :=
  negb (bool_decide (fc_font a = fc_font b)) || negb (fc_colour a =? fc_colour b).

(** *** Token *)

Definition Token_make (t : string) (f : Font) (c : Colour) (isWhitespace_ : bool) : Token Font :=
  mkToken t f c
          (mkRectangle 0 0 (getStringWidth f t) (roundToInt (getHeight f)))
          0 0
          isWhitespace_
          (containsChar t char_LF || containsChar t char_CR).

Definition Token_setArea (t : Token Font) (a : Rectangle) : Token Font :=
  mkToken (tok_text t) (tok_font t) (tok_colour t) a (tok_line t) (tok_lineHeight t)
          (tok_isWhitespace t) (tok_isNewLine t).

Definition Token_setLine (t : Token Font) (l : Z) : Token Font :=
  mkToken (tok_text t) (tok_font t) (tok_colour t) (tok_area t) l (tok_lineHeight t)
          (tok_isWhitespace t) (tok_isNewLine t).

Definition Token_setLineHeight (t : Token Font) (h : Z) : Token Font :=
  mkToken (tok_text t) (tok_font t) (tok_colour t) (tok_area t) (tok_line t) h
          (tok_isWhitespace t) (tok_isNewLine t).

(** *** TokenList::getCharacterType *)

Definition getCharacterType (c : ascii) : Z :=
  if Ascii.eqb c char_CR || Ascii.eqb c char_LF then 0
  else if isWhitespace c then 2 else 1.

(** *** TokenList::appendText

    [t] is the character pointer, [EmptyString] its terminating zero.  A
    [juce::String] holds no zero character; a [string] that does is cut
    there, as the pointer would be. *)

Definition flushToken (currentString : string) (font : Font) (colour : Colour)
    (isWhitespace_ : bool) (tokens : list (Token Font)) : list (Token Font) :=
  if isNotEmpty currentString
  then tokens ++ [Token_make currentString font colour isWhitespace_]
  else tokens.

Fixpoint appendText_loop (font : Font) (colour : Colour) (t : string)
    (currentString : string) (lastCharType : Z) (tokens : list (Token Font))
    : list (Token Font) :=
  match t with
  | EmptyString => flushToken currentString font colour (lastCharType =? 2) tokens
  | String c t' =>
      if Ascii.eqb c char_NUL
      then flushToken currentString font colour (lastCharType =? 2) tokens
      else
        let charType := getCharacterType c in
        if (charType =? 0) || negb (charType =? lastCharType) then
          let tokens' :=
            flushToken currentString font colour
                       ((lastCharType =? 2) || (lastCharType =? 0)) tokens in
          match t' with
          | String c2 t'' =>
              if Ascii.eqb c char_CR && Ascii.eqb c2 char_LF
              then appendText_loop font colour t'' (appendChar (charToString c) c2)
                                   charType tokens'
              else appendText_loop font colour t' (charToString c) charType tokens'
          | EmptyString =>
              appendText_loop font colour t' (charToString c) charType tokens'
          end
        else appendText_loop font colour t' (appendChar currentString c) charType tokens
  end.

Definition appendText (text : AttributedString Font) (stringRange : Range Z)
    (font : Font) (colour : Colour) (tokens : list (Token Font)) : list (Token Font) :=
  let stringText := substring (getText text) (getStart stringRange) (getEnd stringRange) in
  appendText_loop font colour stringText EmptyString 0 tokens.

(** *** TokenList::addTextRuns *)

(** The inner loop over the attributes, for the character at offset [i]. *)
Definition applyAttribute (i : Z) (fc : FontAndColour Font) (attr : Attribute Font)
    : FontAndColour Font :=
  let inRange := (getStart (attr_range attr) <=? i) && (i <? getEnd (attr_range attr)) in
  let fc1 :=
    match attr_getFont attr with
    | Some f => if inRange then mkFontAndColour (Some f) (fc_colour fc) else fc
    | None => fc
    end in
  match attr_getColour attr with
  | Some c => if inRange then mkFontAndColour (fc_font fc1) c else fc1
  | None => fc1
  end.

Definition effectiveStyle (text : AttributedString Font) (i : Z) : FontAndColour Font :=
  fold_left (applyAttribute i) (attributes text)
            (mkFontAndColour (Some defaultFont) defaultColour).

(** The outer loop over the characters; [remaining] counts the iterations
    left, [i + 1 <= stringLength] never wraps. *)
Fixpoint scanStyles (remaining : nat) (text : AttributedString Font) (stringLength : Z)
    (i rangeStart : Z) (lastFontAndColour : FontAndColour Font)
    (runAttributes : list (RunAttribute Font)) : list (RunAttribute Font) :=
  match remaining with
  | O => runAttributes
  | S remaining' =>
      let newFontAndColour := effectiveStyle text i in
      if (0 <? i) && (FontAndColour_ne newFontAndColour lastFontAndColour
                      || (i =? stringLength - 1))
      then
        scanStyles remaining' text stringLength (i + 1) i newFontAndColour
          (runAttributes ++
             [mkRunAttribute lastFontAndColour
                (Range_make rangeStart (if i <? stringLength - 1 then i else i + 1))])
      else
        scanStyles remaining' text stringLength (i + 1) rangeStart newFontAndColour
          runAttributes
  end.

Definition String_length (s : string) : Z := Z.of_nat (String.length s).

Definition runAttributesOf (text : AttributedString Font) : list (RunAttribute Font) :=
  scanStyles (String.length (getText text)) text (String_length (getText text))
             0 0 (mkFontAndColour None defaultColour) [].

(** The second loop; a range whose font pointer is null would be a null
    dereference in the source, and adds nothing here. *)
Definition appendRunAttribute (text : AttributedString Font)
    (tokens : list (Token Font)) (r : RunAttribute Font) : list (Token Font) :=
  match fc_font (ra_fontAndColour r) with
  | Some font => appendText text (ra_range r) font (fc_colour (ra_fontAndColour r)) tokens
  | None => tokens
  end.

Definition addTextRuns (text : AttributedString Font) (tokens : list (Token Font))
    : list (Token Font) :=
  fold_left (appendRunAttribute text) (runAttributesOf text) tokens.


(** *** TokenList::setLastLineHeight

    [while (--i >= 0)]: the tokens below index [i], from the last one
    down, as long as they carry the current line number. *)

Fixpoint setLastLineHeight (tokens : list (Token Font)) (totalLines : Z)
    (i : nat) (height : Z) : list (Token Font) :=
  match i with
  | O => tokens
  | S i' =>
      match tokens !! i' with
      | Some tok =>
          if tok_line tok =? totalLines
          then setLastLineHeight (<[i' := Token_setLineHeight tok height]> tokens)
                                 totalLines i' height
          else tokens
      | None => tokens
      end
  end.

(** *** TokenList::layoutRuns *)

Record BreakerState := mkBreakerState {
  bs_tokens : list (Token Font);
  bs_totalLines : Z;
  bs_x : Z;
  bs_y : Z;
  bs_h : Z;
  bs_i : nat;
}.

(** The wrap test of the loop, on the token just placed, the cursor [x]
    after it and the token that follows. *)
Definition lineEndsAfter (maxWidth : Z) (t : Token Font) (x : Z) (nextTok : Token Font)
    : bool :=
  tok_isNewLine t
  || (negb (tok_isWhitespace nextTok) && (maxWidth <? int_add x (rect_w (tok_area nextTok)))).

(** [remaining] is [tokens.size() - i]: the loop leaves when it is used
    up, or at the [break] on the last token. *)
Fixpoint layoutRuns_loop (remaining : nat) (maxWidth : Z) (s : BreakerState)
    : BreakerState :=
  match remaining with
  | O => s
  | S remaining' =>
      let i := bs_i s in
      match bs_tokens s !! i with
      | None => s
      | Some t0 =>
          let t := Token_setLine
                     (Token_setArea t0 (Rectangle_setPosition (tok_area t0) (bs_x s) (bs_y s)))
                     (bs_totalLines s) in
          let tokens := <[i := t]> (bs_tokens s) in
          let x := int_add (bs_x s) (rect_w (tok_area t)) in
          let h := jmax (bs_h s) (rect_h (tok_area t)) in
          match tokens !! (i + 1)%nat with
          | None => mkBreakerState tokens (bs_totalLines s) x (bs_y s) h i
          | Some nextTok =>
              if lineEndsAfter maxWidth t x nextTok
              then layoutRuns_loop remaining' maxWidth
                     (mkBreakerState
                        (setLastLineHeight tokens (bs_totalLines s) (i + 1) h)
                        (int_add (bs_totalLines s) 1)
                        0 (int_add (bs_y s) h) 0 (i + 1))
              else layoutRuns_loop remaining' maxWidth
                     (mkBreakerState tokens (bs_totalLines s) x (bs_y s) h (i + 1))
          end
      end
  end.

(** The token list and [totalLines] after [layoutRuns (maxWidth)]. *)
Definition layoutRuns (tokens : list (Token Font)) (totalLines : Z) (maxWidth : Z)
    : list (Token Font) * Z :=
  let s := layoutRuns_loop (length tokens) maxWidth
                           (mkBreakerState tokens totalLines 0 0 0 0) in
  (setLastLineHeight (bs_tokens s) (bs_totalLines s)
                     (Nat.min (bs_i s + 1) (length (bs_tokens s))) (bs_h s),
   int_add (bs_totalLines s) 1).

(** *** TokenList::getLineWidth *)

Definition getLineWidth (tokens : list (Token Font)) (lineNumber : Z) : Z :=
  fold_left
    (fun maxW t =>
       if (tok_line t =? lineNumber) && negb (tok_isWhitespace t)
       then jmax maxW (Rectangle_getRight (tok_area t))
       else maxW)
    (rev tokens) 0.

(** *** TokenList::addRun *)

Definition Run_new : Run Font := mkRun defaultFont defaultColour [] Range_empty.

Definition Line_new : Line Font := mkLine Range_empty (mkPoint 0 0) 0 0 0 [].

Definition Run_addGlyph (r : Run Font) (g : Glyph) : Run Font :=
  mkRun (run_font r) (run_colour r) (run_glyphs r ++ [g]) (run_stringRange r).

Definition Line_setOrigin (l : Line Font) (p : Point) : Line Font :=
  mkLine (line_stringRange l) p (ascent l) (descent l) (leading l) (line_runs l).

Definition Line_setStringRange (l : Line Font) (r : Range Z) : Line Font :=
  mkLine r (lineOrigin l) (ascent l) (descent l) (leading l) (line_runs l).

Definition addRun (glyphLine : Line Font) (glyphRun : Run Font) (t : Token Font)
    (startPos endPos : Z) : Line Font :=
  let run := mkRun (tok_font t) (tok_colour t) (run_glyphs glyphRun)
                   (Range_make startPos endPos) in
  mkLine (line_stringRange glyphLine) (lineOrigin glyphLine)
         (jmax (ascent glyphLine) (getAscent (tok_font t)))
         (jmax (descent glyphLine) (getDescent (tok_font t)))
         (leading glyphLine)
         (line_runs glyphLine ++ [run]).

(** *** TokenList::createLayout, the loop over the tokens *)

Record BuilderState := mkBuilderState {
  charPosition : Z;
  lineStartPosition : Z;
  runStartPosition : Z;
  currentLine : option (Line Font);
  currentRun : option (Run Font);
  needToSetLineOrigin : bool;
  layoutLines : list (Line Font);
}.

(** The loop over the glyphs of one token, on the current run, the current
    line, [needToSetLineOrigin] and [charPosition]. *)
Fixpoint addGlyphs (t : Token Font) (tokenPos : Point) (newGlyphs : list Z)
    (xOffsets : list float) (j : nat)
    (acc : Run Font * Line Font * bool * Z) : Run Font * Line Font * bool * Z :=
  match newGlyphs with
  | [] => acc
  | code :: rest =>
      let '(run, line, need, charPos) := acc in
      let line' :=
        if need
        then Line_setOrigin line (Point_translated tokenPos 0 (getAscent (tok_font t)))
        else line in
      let x := nth j xOffsets 0%Q in
      let glyph := mkGlyph code (mkPoint (pt_x tokenPos + x)%Q 0%Q)
                           (nth (S j) xOffsets 0%Q - x)%Q in
      addGlyphs t tokenPos rest xOffsets (S j)
                (Run_addGlyph run glyph, line', false, int_add charPos 1)
  end.

Definition buildStep (t : Token Font) (nextToken : option (Token Font))
    (st : BuilderState) : BuilderState :=
  let tokenPos := Rectangle_getPosition (tok_area t) in
  let '(newGlyphs, xOffsets) := getGlyphPositions (tok_font t) (trimEnd (tok_text t)) in
  let run0 := default Run_new (currentRun st) in
  let line0 := default Line_new (currentLine st) in
  let '(run1, line1, need1, charPos1) :=
    addGlyphs t tokenPos newGlyphs xOffsets 0
              (run0, line0, needToSetLineOrigin st, charPosition st) in
  let charPos2 :=
    if tok_isWhitespace t || tok_isNewLine t then int_add charPos1 1 else charPos1 in
  match nextToken with
  | None =>
      let line2 := addRun line1 run1 t (runStartPosition st) charPos2 in
      let line3 := Line_setStringRange line2 (Range_make (lineStartPosition st) charPos2) in
      mkBuilderState charPos2 (lineStartPosition st) (runStartPosition st)
                     None None need1 (layoutLines st ++ [line3])
  | Some next =>
      let styleChanges :=
        negb (bool_decide (tok_font t = tok_font next))
        || negb (tok_colour t =? tok_colour next) in
      let line2 :=
        if styleChanges then addRun line1 run1 t (runStartPosition st) charPos2 else line1 in
      let run2 := if styleChanges then None else Some run1 in
      let runStart2 := if styleChanges then charPos2 else runStartPosition st in
      if negb (tok_line t =? tok_line next)
      then
        let line3 := addRun line2 (default Run_new run2) t runStart2 charPos2 in
        let line4 := Line_setStringRange line3 (Range_make (lineStartPosition st) charPos2) in
        mkBuilderState charPos2 charPos2 charPos2 None None true (layoutLines st ++ [line4])
      else
        mkBuilderState charPos2 (lineStartPosition st) runStart2
                       (Some line2) run2 need1 (layoutLines st)
  end.

(** [tokens[i + 1]] is the head of what follows [tokens[i]]. *)
Fixpoint buildLines (tokens : list (Token Font)) (st : BuilderState) : BuilderState :=
  match tokens with
  | [] => st
  | t :: rest => buildLines rest (buildStep t (head rest) st)
  end.

(** *** TokenList::createLayout, the justification pass *)

Definition Line_shiftX (l : Line Font) (dx : float) : Line Font :=
  Line_setOrigin l (mkPoint (pt_x (lineOrigin l) + dx)%Q (pt_y (lineOrigin l))).

Definition justifyLines (flags : Z) (totalW : Z) (tokens : list (Token Font))
    (ls : list (Line Font)) : list (Line Font) :=
  if negb (Z.land flags (Z.lor Justification.right Justification.horizontallyCentred) =? 0)
  then
    let isCentred := negb (Z.land flags Justification.horizontallyCentred =? 0) in
    imap (fun i line =>
            let dx := int_to_float (int_sub totalW (getLineWidth tokens (Z.of_nat i))) in
            Line_shiftX line (if isCentred then dx / 2 else dx)%Q)
         ls
  else ls.

(** The lines of the layout after the loop over the tokens, before the
    justification pass, together with the tokens the breaker has placed. *)
Definition standardLines (text : AttributedString Font) (layout : TextLayout Font)
    : list (Token Font) * list (Line Font) :=
  let tokens := fst (layoutRuns (addTextRuns text []) 0 (float_to_int (width layout))) in
  (tokens,
   layoutLines (buildLines tokens (mkBuilderState 0 0 0 None None true (lines layout)))).

Definition TokenList_createLayout (text : AttributedString Font) (layout : TextLayout Font)
    : TextLayout Font :=
  let '(tokens, built) := standardLines text layout in
  mkTextLayout
    (justifyLines (getJustification text) (float_to_int (width layout)) tokens built)
    (width layout) (justification layout).

(** ** TextLayout: createStandardLayout, recalculateWidth, createLayout *)

Definition createStandardLayout (text : AttributedString Font) (this : TextLayout Font)
    : TextLayout Font :=
  TokenList_createLayout text this.

(** The two loops of [recalculateWidth]: the union of the bounds of the
    first line and of the lines of indices [size - 1] down to 1. *)
Definition unionOfLineBounds (first : Line Font) (others : list (Line Font))
    : Range float :=
  fold_left (fun r line => getUnionWith r (getLineBoundsX line))
            (rev others) (getLineBoundsX first).

Definition recalculateWidth (text : AttributedString Font) (this : TextLayout Font)
    : TextLayout Font :=
  match lines this with
  | [] => this
  | first :: others =>
      if ReadingDirection_eqb (getReadingDirection text) rightToLeft then this
      else
        let range := unionOfLineBounds first others in
        mkTextLayout
          (map (fun line => Line_shiftX line (- getStart range)%Q) (lines this))
          (getLength range) (justification this)
  end.

(** [createLayout] up to the call of [recalculateWidth]: the layout is
    cleared, takes the width and the justification, and is filled by the
    native backend or, when that declines, by the standard one. *)
Definition fillLayout (text : AttributedString Font) (maxWidth : float)
    : TextLayout Font :=
  let cleared := mkTextLayout [] maxWidth (getJustification text) in
  match createNativeLayout text cleared with
  | Some nativeLines => mkTextLayout nativeLines (width cleared) (justification cleared)
  | None => createStandardLayout text cleared
  end.

Definition createLayout (text : AttributedString Font) (maxWidth : float)
    (this : TextLayout Font) : TextLayout Font :=
  recalculateWidth text (fillLayout text maxWidth).

(** [TextLayout::getLine] is [return *lines[index];]: the pointer the
    array hands back is dereferenced as it is, with no check and no
    assertion in between. *)
Definition getLine (this : TextLayout Font) (index : Z) : Deref (Line Font) :=
  dereference (OwnedArray_at (lines this) index).

(** ** TextLayout::createLayoutWithBalancedLineLengths *)

(** The binary32 value of the literal [0.9f]. *)
Definition float_0_9 : float := (7549747 # 8388608)%Q.

Record BalanceState := mkBalanceState {
  bal_layout : TextLayout Font;
  bal_maxWidth : float;
  bal_bestWidth : float;
  bal_bestLineProportion : float;
}.

(** [prop], from the lengths of the last and the last but one line. *)
Definition lineProportion (line1 line2 : float) : float :=
  let shortestLine := jmin line1 line2 in
  if Qltb 0 shortestLine then (jmax line1 line2 / shortestLine)%Q else 1%Q.

(** The end of the loop body: remember the width when [prop] beats
    [bestLineProportion], then step [maxWidth] down by 10. *)
Definition trackBest (prop : float) (layout : TextLayout Font) (s : BalanceState)
    : BalanceState :=
  if Qltb (bal_bestLineProportion s) prop
  then mkBalanceState layout (bal_maxWidth s - 10)%Q (bal_maxWidth s) prop
  else mkBalanceState layout (bal_maxWidth s - 10)%Q (bal_bestWidth s)
                      (bal_bestLineProportion s).

Inductive BalanceOutcome :=
| Returned (layout : TextLayout Font)
| Exhausted (s : BalanceState)
| OutOfFuel.

Fixpoint balanceLoop (fuel : nat) (text : AttributedString Font) (minimumWidth : float)
    (s : BalanceState) : BalanceOutcome :=
  if Qltb minimumWidth (bal_maxWidth s) then
    match fuel with
    | O => OutOfFuel
    | S fuel' =>
        let layout := createLayout text (bal_maxWidth s) (bal_layout s) in
        if getNumLines layout <? 2 then Returned layout
        else
          let n := length (lines layout) in
          match lines layout !! (n - 1)%nat, lines layout !! (n - 2)%nat with
          | Some last1, Some last2 =>
              let prop := lineProportion (getLength (getLineBoundsX last1))
                                         (getLength (getLineBoundsX last2)) in
              if Qltb float_0_9 prop then Returned layout
              else balanceLoop fuel' text minimumWidth (trackBest prop layout s)
          | _, _ => Returned layout
          end
    end
  else Exhausted s.

(** [None] only when [fuel] passes of the loop were not enough. *)
Definition createLayoutWithBalancedLineLengths (fuel : nat) (text : AttributedString Font)
    (maxWidth : float) (this : TextLayout Font) : option (TextLayout Font) :=
  let minimumWidth := (maxWidth / 2)%Q in
  match balanceLoop fuel text minimumWidth (mkBalanceState this maxWidth maxWidth 0%Q) with
  | Returned layout => Some layout
  | Exhausted s =>
      Some (if negb (Qeq_bool (bal_bestWidth s) (bal_maxWidth s))
            then createLayout text (bal_bestWidth s) (bal_layout s)
            else bal_layout s)
  | OutOfFuel => None
  end.

End Engine.

(** ** TextLayout::draw *)

Record RectangleF := mkRectangleF {
  rectf_x : float;
  rectf_y : float;
  rectf_w : float;
  rectf_h : float;
}.

Definition Point_add (a b : Point) : Point :=
  mkPoint (pt_x a + pt_x b)%Q (pt_y a + pt_y b)%Q.

(** [Justification::appliedToRectangle] followed by [getPosition]
    (juce_Justification.h is not part of the file): the position the
    justification with the given flags gives a rectangle inside a target
    area. *)
Class Placement := appliedPosition : Z -> RectangleF -> RectangleF -> Point.

(** The calls [draw] makes on the graphics context, in their order. *)
Inductive DrawCall (Font : Type) :=
| SetFont (font : Font)
| SetFill (colour : Colour)
| DrawGlyph (code : Z) (tx ty : float).
Arguments SetFont {Font} _.
Arguments SetFill {Font} _.
Arguments DrawGlyph {Font} _ _ _.

Section Draw.
Context {Font : Type} `{Placement}.

Definition drawRun (lineOrigin : Point) (run : Run Font) : list (DrawCall Font) :=
  SetFont (run_font run)
  :: SetFill (run_colour run)
  :: map (fun glyph =>
            DrawGlyph (glyphCode glyph)
                      (pt_x lineOrigin + pt_x (anchor glyph))%Q
                      (pt_y lineOrigin + pt_y (anchor glyph))%Q)
         (run_glyphs run).

Definition drawLine (origin : Point) (line : Line Font) : list (DrawCall Font) :=
  concat (map (drawRun (Point_add origin (lineOrigin line))) (line_runs line)).

Definition draw (this : TextLayout Font) (area : RectangleF) : list (DrawCall Font) :=
  let origin :=
    appliedPosition (justification this)
                    (mkRectangleF 0 0 (width this) (getHeight_layout this)) area in
  concat (map (drawLine origin) (lines this)).

End Draw.

(** ** A concrete platform: fixed-pitch fonts, no native backend

    A font is its advance in pixels: every character is one glyph of that
    width, whose code is the character's.  There is no native backend, as
    on the platforms where [createNativeLayout] returns false. *)

Module FixedPitch.

Definition Font := Z.

Fixpoint glyphCodes (s : string) : list Z :=
  match s with
  | EmptyString => []
  | String c rest => Z.of_nat (nat_of_ascii c) :: glyphCodes rest
  end.

Definition glyphOffsets (advance : Z) (n : nat) : list float :=
  map (fun k => inject_Z (advance * Z.of_nat k)) (seq 0 (S n)).

#[global] Instance metrics : FontMetrics Font := {|
  Font_eq_dec := Z.eq_dec;
  defaultFont := 10;
  getStringWidth f s := f * Z.of_nat (String.length s);
  getHeight f := inject_Z f;
  getAscent f := inject_Z f;
  getDescent f := 0%Q;
  getGlyphPositions f s := (glyphCodes s, glyphOffsets f (String.length s));
|}.

#[global] Instance noNative : NativeBackend Font := fun _ _ => None.

Definition emptyLayout : TextLayout Font := mkTextLayout [] 0 Justification.topLeft.

Definition plainText (s : string) : AttributedString Font :=
  mkAttributedString s Justification.topLeft natural [].

(** Ten letters, 100 pixels wide, to be centred. *)
Definition centredText (direction : ReadingDirection) : AttributedString Font :=
  mkAttributedString "abcdefghij" Justification.horizontallyCentred direction [].

(** "ab" whose second letter is given the font 20. *)
Definition lastCharStyled : AttributedString Font :=
  mkAttributedString "ab" Justification.topLeft natural
                     [mkAttribute (mkRange 1 2) (Some 20) None].

(** Three words, the middle one given the font 20. *)
Definition styledWords : AttributedString Font :=
  mkAttributedString "ab cd ef" Justification.topLeft natural
                     [mkAttribute (mkRange 3 5) (Some 20) None].

(** The line the standard layout builds for the text "a ": one run with
    the single glyph of the letter, at x = 0 and 10 wide. *)
Definition oneGlyphLine : Line Font :=
  mkLine (mkRange 0 2) (mkPoint 0 10) 10 0 0
         [mkRun 10 defaultColour [mkGlyph 97 (mkPoint 0 0) 10] (mkRange 0 2)].

End FixedPitch.

(** ** Vocabulary of the statements *)

Section Vocabulary.
Context {Font : Type} `{FontMetrics Font} `{NativeBackend Font}.

(** What the breaker never touches: a token without its position, line
    number and line height. *)
Definition Token_content (t : Token Font) : Token Font :=
  mkToken (tok_text t) (tok_font t) (tok_colour t)
          (mkRectangle 0 0 (rect_w (tok_area t)) (rect_h (tok_area t)))
          0 0 (tok_isWhitespace t) (tok_isNewLine t).

(** A token without its line height. *)
Definition Token_placed (t : Token Font) : Token Font := Token_setLineHeight t 0.

(** The cursor once [t] has been placed. *)
Definition cursorAfter (t : Token Font) : Z :=
  int_add (rect_x (tok_area t)) (rect_w (tok_area t)).

(** How the token that follows [t] is placed: on the next line at x = 0
    when the line ends after [t], behind [t] on the same line otherwise. *)
Definition placedAfter (maxWidth : Z) (t next : Token Font) : Prop :=
  if lineEndsAfter maxWidth t (cursorAfter t) next
  then tok_line next = int_add (tok_line t) 1 /\ rect_x (tok_area next) = 0
  else tok_line next = tok_line t /\ rect_x (tok_area next) = cursorAfter t.

(** The wrap test as a proposition: [t] is a line break, or [next] is not
    white space and does not fit behind [t]. *)
Definition lineEndsBetween (maxWidth : Z) (t next : Token Font) : Prop :=
  tok_isNewLine t = true
  \/ (tok_isWhitespace next = false
      /\ maxWidth < int_add (cursorAfter t) (rect_w (tok_area next))).

(** [after] is [before] moved to the right by [dx]. *)
Definition shiftedBy (dx : float) (before after : Line Font) : Prop :=
  (pt_x (lineOrigin after) == pt_x (lineOrigin before) + dx)%Q
  /\ pt_y (lineOrigin after) = pt_y (lineOrigin before)
  /\ line_runs after = line_runs before
  /\ line_stringRange after = line_stringRange before.

(** The layout [createLayout] clears and sets up before it is filled. *)
Definition clearedLayout (text : AttributedString Font) (maxWidth : float)
    : TextLayout Font :=
  mkTextLayout [] maxWidth (getJustification text).

End Vocabulary.

(** ** Vocabulary of the further statements *)

Section MoreVocabulary.
Context {Font : Type} `{FontMetrics Font} `{NativeBackend Font}.

(** The texts of the tokens, one after the other. *)
Definition tokensText (tokens : list (Token Font)) : string :=
  fold_right (fun t rest => (tok_text t ++ rest)%string) EmptyString tokens.

(** Every character of [s] is of the character type [charType]. *)
Fixpoint allOfType (charType : Z) (s : string) : Prop :=
  match s with
  | EmptyString => True
  | String c rest => getCharacterType c = charType /\ allOfType charType rest
  end.

(** A line break: CR LF, a lone CR or a lone LF. *)
Definition isLineBreak (s : string) : Prop :=
  s = String char_CR (String char_LF EmptyString)
  \/ s = String char_CR EmptyString
  \/ s = String char_LF EmptyString.

(** The three kinds of token: a line break, a stretch of white space, a
    word. *)
Definition tokenShape (t : Token Font) : Prop :=
  (isLineBreak (tok_text t) /\ tok_isNewLine t = true)
  \/ (tok_text t <> EmptyString /\ allOfType 2 (tok_text t)
      /\ tok_isNewLine t = false /\ tok_isWhitespace t = true)
  \/ (tok_text t <> EmptyString /\ allOfType 1 (tok_text t)
      /\ tok_isNewLine t = false /\ tok_isWhitespace t = false).

(** The pending token of [appendText] and the type of its characters:
    nothing pending, a line break, or a stretch of one type. *)
Definition pendingShape (cur : string) (lastCharType : Z) : Prop :=
  (cur = EmptyString /\ lastCharType = 0)
  \/ (isLineBreak cur /\ lastCharType = 0)
  \/ (cur <> EmptyString /\ allOfType lastCharType cur
      /\ (lastCharType = 1 \/ lastCharType = 2)).

(** The ranges follow one another from [start] to [stop]. *)
Fixpoint contiguous (start : Z) (rs : list (Range Z)) (stop : Z) : Prop :=
  match rs with
  | [] => start = stop
  | r :: rest => getStart r = start /\ start <= getEnd r /\ contiguous (getEnd r) rest stop
  end.

(** What holds of the ranges emitted so far. *)
Definition rangesSound (text : AttributedString Font) (stringLength : Z)
    (rs : list (RunAttribute Font)) : Prop :=
  Forall (fun r => getStart (ra_range r) < getEnd (ra_range r)
                   /\ forall k, getStart (ra_range r) <= k < getEnd (ra_range r) ->
                                k < stringLength - 1 ->
                                effectiveStyle text k = ra_fontAndColour r) rs.

(** The tokens [getLineWidth] measures: on the line, and not white space. *)
Definition measuredOn (lineNumber : Z) (t : Token Font) : Prop :=
  tok_line t = lineNumber /\ tok_isWhitespace t = false.

(** The number of places where the line number changes from a token to
    the next. *)
Fixpoint lineChanges (tokens : list (Token Font)) : nat :=
  match tokens with
  | [] => 0
  | t :: rest =>
      match rest with
      | [] => 0
      | next :: _ => (if tok_line t =? tok_line next then 0 else 1) + lineChanges rest
      end
  end.

(** The glyph codes the font yields for a token. *)
Definition shapedCodes (t : Token Font) : list Z :=
  fst (getGlyphPositions (tok_font t) (trimEnd (tok_text t))).

(** By how much a token moves [charPosition]: one per glyph, and one more
    for white space or a line break. *)
Definition tokenAdvance (t : Token Font) : Z :=
  Z.of_nat (length (shapedCodes t))
  + (if tok_isWhitespace t || tok_isNewLine t then 1 else 0).

(** [charPosition] once the loop has dealt with the token [t]. *)
Definition charPositionAfter (t : Token Font) (charPos : Z) : Z :=
  let charPos1 := fold_left (fun c _ => int_add c 1) (shapedCodes t) charPos in
  if tok_isWhitespace t || tok_isNewLine t then int_add charPos1 1 else charPos1.

(** The characters a list of tokens accounts for. *)
Definition totalAdvance (tokens : list (Token Font)) : Z :=
  fold_right (fun t rest => tokenAdvance t + rest) 0 tokens.

(** The glyph codes of some lines, run after run. *)
Definition lineCodes (line : Line Font) : list Z :=
  concat (map (fun run => map glyphCode (run_glyphs run)) (line_runs line)).

(** The glyph codes of a list of lines. *)
Definition linesCodes (ls : list (Line Font)) : list Z := concat (map lineCodes ls).

(** The ranges of the runs of a line go from the start of the range of
    the line to its end. *)
Definition runsFillLine (line : Line Font) : Prop :=
  contiguous (getStart (line_stringRange line)) (map run_stringRange (line_runs line))
             (getEnd (line_stringRange line)).

(** The codes of the line and of the run under construction. *)
Definition pendingCodes (st : BuilderState) : list Z :=
  lineCodes (default Line_new (currentLine st))
  ++ map glyphCode (run_glyphs (default Run_new (currentRun st))).

(** A line with the x of its origin set to 0: all of it but that x. *)
Definition Line_withoutX (l : Line Font) : Line Font :=
  Line_setOrigin l (mkPoint 0 (pt_y (lineOrigin l))).

(** What the loop keeps between two tokens. *)
Definition rangesInvariant (st : @BuilderState Font) : Prop :=
  0 <= lineStartPosition st <= runStartPosition st
  /\ runStartPosition st <= charPosition st
  /\ contiguous 0 (map line_stringRange (layoutLines st)) (lineStartPosition st)
  /\ Forall runsFillLine (layoutLines st)
  /\ contiguous (lineStartPosition st)
                (map run_stringRange (line_runs (default Line_new (currentLine st))))
                (runStartPosition st).

(** The left and the right edge of a glyph of a line, in layout space. *)
Definition glyphLeft (line : Line Font) (g : Glyph) : float :=
  (pt_x (anchor g) + pt_x (lineOrigin line))%Q.

(** The right edge: the left one plus the width of the glyph. *)
Definition glyphRight (line : Line Font) (g : Glyph) : float :=
  (pt_x (anchor g) + glyph_width g + pt_x (lineOrigin line))%Q.

(** A range covers the stretch from [lo] to [hi]. *)
Definition covers (r : Range float) (lo hi : float) : Prop :=
  (getStart r <= lo)%Q /\ (hi <= getEnd r)%Q.

(** The ascent and the descent of a line are not negative and reach
    those of the font of each of its runs. *)
Definition coversFonts (line : Line Font) : Prop :=
  (0 <= ascent line)%Q /\ (0 <= descent line)%Q
  /\ Forall (fun run => (getAscent (run_font run) <= ascent line)%Q
                        /\ (getDescent (run_font run) <= descent line)%Q)
            (line_runs line).

(** The first [n] tokens are stacked line under line: the first one is at
    y = 0; the line height of a token is not negative and at least the
    height of the token; a token on the line of the one before it has
    the y and the line height of that one; a token on another line lies
    below the one before it by the line height of that one. *)
Definition stackedUpTo (toks : list (Token Font)) (n : nat) : Prop :=
  (forall t, (0 < n)%nat -> toks !! 0%nat = Some t -> rect_y (tok_area t) = 0)
  /\ (forall (j : nat) t, (j < n)%nat -> toks !! j = Some t ->
        0 <= tok_lineHeight t /\ rect_h (tok_area t) <= tok_lineHeight t)
  /\ (forall (j : nat) t next, (S j < n)%nat ->
        toks !! j = Some t -> toks !! S j = Some next ->
        (tok_line next = tok_line t ->
         rect_y (tok_area next) = rect_y (tok_area t)
         /\ tok_lineHeight next = tok_lineHeight t)
        /\ (tok_line next <> tok_line t ->
            rect_y (tok_area next) = int_add (rect_y (tok_area t)) (tok_lineHeight t))).

(** The tokens from [b] up to [n] are the line under construction. *)
Definition openBlock (toks : list (Token Font)) (L y h : Z) (b n : nat) : Prop :=
  (b <= n <= length toks)%nat /\ 0 <= h
  /\ (forall (j : nat) t, (b <= j < n)%nat -> toks !! j = Some t ->
        tok_line t = L /\ rect_y (tok_area t) = y /\ rect_h (tok_area t) <= h)
  /\ (b = 0%nat -> y = 0)
  /\ ((0 < b)%nat ->
      exists p, toks !! (b - 1)%nat = Some p /\ tok_line p <> L
                /\ y = int_add (rect_y (tok_area p)) (tok_lineHeight p)).

(** The class of a token as its flags give it: 0 for a line break, 2 for
    white space, 1 for a word. *)
Definition tokenClass (t : Token Font) : Z :=
  if tok_isNewLine t then 0 else if tok_isWhitespace t then 2 else 1.

(** From index [k] on, two neighbours are not both words nor both white
    space. *)
Definition classesAlternate (k : nat) (tokens : list (Token Font)) : Prop :=
  forall (i : nat) (a b : Token Font),
    (k <= i)%nat -> tokens !! i = Some a -> tokens !! S i = Some b ->
    tokenClass a = 0 \/ tokenClass b = 0 \/ tokenClass a <> tokenClass b.

(** What the loop of [appendText] keeps, with [k] tokens there before
    the call. *)
Definition appendInvariant (k : nat) (tokens : list (Token Font)) (cur : string)
    (lastCharType : Z) : Prop :=
  (k <= length tokens)%nat
  /\ pendingShape cur lastCharType
  /\ classesAlternate k tokens
  /\ (cur = EmptyString -> length tokens = k)
  /\ (forall t, (k < length tokens)%nat -> last tokens = Some t ->
        tokenClass t = 0 \/ lastCharType = 0 \/ tokenClass t <> lastCharType).

(** What a context paints for a sequence of calls: each glyph with the
    font and the fill in force when it is drawn. *)
Fixpoint painted (calls : list (DrawCall Font)) (font : option Font)
    (fill : option Colour) : list (option Font * option Colour * Z * float * float) :=
  match calls with
  | [] => []
  | SetFont f :: rest => painted rest (Some f) fill
  | SetFill c :: rest => painted rest font (Some c)
  | DrawGlyph code tx ty :: rest => (font, fill, code, tx, ty) :: painted rest font fill
  end.

(** The glyphs of some lines drawn at [origin], each with the font and
    the colour of its run. *)
Definition glyphsAt (origin : Point) (ls : list (Line Font))
    : list (option Font * option Colour * Z * float * float) :=
  concat
    (map (fun line =>
            concat
              (map (fun run =>
                      map (fun glyph =>
                             (Some (run_font run), Some (run_colour run), glyphCode glyph,
                              (pt_x origin + pt_x (lineOrigin line)
                               + pt_x (anchor glyph))%Q,
                              (pt_y origin + pt_y (lineOrigin line)
                               + pt_y (anchor glyph))%Q))
                          (run_glyphs run))
                   (line_runs line)))
         ls).

End MoreVocabulary.

(** * Properties *)

(** ** Indexed line access *)

Section LineAccess.
Context {Font : Type} `{FontMetrics Font} `{NativeBackend Font}.

Lemma OwnedArray_at_inside {A} (a : list A) (index : Z) :
  0 <= index < Z.of_nat (length a) ->
  OwnedArray_at a index = a !! Z.to_nat index /\ is_Some (OwnedArray_at a index).
Proof.
  intros [Hlo Hhi]. unfold OwnedArray_at.
  rewrite (proj2 (Z.leb_le _ _) Hlo), (proj2 (Z.ltb_lt _ _) Hhi). simpl.
  split; [reflexivity|]. apply lookup_lt_is_Some. lia.
Qed.

Lemma OwnedArray_at_outside {A} (a : list A) (index : Z) :
  ~ (0 <= index < Z.of_nat (length a)) -> OwnedArray_at a index = None.
Proof.
  intros Hout. unfold OwnedArray_at.
  destruct (0 <=? index) eqn:Hlo; [|reflexivity].
  destruct (index <? Z.of_nat (length a)) eqn:Hhi; [|reflexivity].
  apply Z.leb_le in Hlo. apply Z.ltb_lt in Hhi. lia.
Qed.

(** C8, as the code has it: [getLine] makes no check of its own.  For an
    index in [0, getNumLines) it is the line stored at that index; for
    every other index the array hands back the null pointer and [getLine]
    dereferences it. *)
Theorem getLine_unchecked (this : TextLayout Font) (index : Z) :
  (0 <= index < getNumLines this ->
   exists line : Line Font,
     lines this !! Z.to_nat index = Some line /\ getLine this index = Object line)
  /\ (~ (0 <= index < getNumLines this) -> getLine this index = NullDereference).
Proof.
  unfold getLine, getNumLines. split.
  - intros Hin.
    destruct (OwnedArray_at_inside (lines this) index Hin) as [Heq [line Hline]].
    exists line. rewrite Hline. split; [congruence | reflexivity].
  - intros Hout. rewrite (OwnedArray_at_outside (lines this) index Hout). reflexivity.
Qed.

End LineAccess.

(** C8 fails as stated: in a layout of one line the access at index 2 is
    not refused, the null pointer is dereferenced. *)
Lemma getLine_dereferences_null :
  ~ (0 <= 2 < getNumLines (mkTextLayout [FixedPitch.oneGlyphLine] 10 Justification.topLeft))
  /\ getLine (mkTextLayout [FixedPitch.oneGlyphLine] 10 Justification.topLeft) 2
     = NullDereference.
Proof. split; [vm_compute; intros [_ Hlt]; discriminate | reflexivity]. Qed.

Lemma getLine_unchecked_witness :
  exists line : Line FixedPitch.Font,
    [FixedPitch.oneGlyphLine] !! Z.to_nat 0 = Some line
    /\ getLine (mkTextLayout [FixedPitch.oneGlyphLine] 10 Justification.topLeft) 0
       = Object line.
Proof.
  apply (proj1 (getLine_unchecked
                  (mkTextLayout [FixedPitch.oneGlyphLine] 10 Justification.topLeft) 0)).
  vm_compute. split; [discriminate | reflexivity].
Defined.

(** ** Horizontal bounds of a line *)

Example oneGlyphLine_built :
  lines (fillLayout (FixedPitch.plainText "a ") 1000) = [FixedPitch.oneGlyphLine].
Proof. vm_compute. reflexivity. Qed.

(** C3: on a line whose only run holds a single glyph at x = 0 of width
    10, [getLineBoundsX] returns the range from 0 to 0: the inner loop
    stops before index 0, so the width of the first glyph of a run is
    never added, and the right edge 10 of the glyph lies outside the
    result. *)
Theorem getLineBoundsX_drops_first_glyph_width :
  getLineBoundsX FixedPitch.oneGlyphLine = mkRange 0%Q 0%Q
  /\ map (fun g => (pt_x (anchor g), (pt_x (anchor g) + glyph_width g)%Q))
         (concat (map run_glyphs (line_runs FixedPitch.oneGlyphLine)))
     = [(0%Q, 10%Q)]
  /\ Qltb (getEnd (getLineBoundsX FixedPitch.oneGlyphLine)) 10 = true.
Proof. vm_compute. repeat split; reflexivity. Qed.

(** ** Character offsets *)

(** C1: for the four characters of "a  b", wide enough to fit on one line,
    the layout holds a single line whose range, like that of its only run,
    is [0, 3): the token of two spaces advances [charPosition] by one, so
    offset 3 is covered by no line. *)
Theorem createLayout_two_spaces_offsets :
  String_length "a  b" = 4
  /\ map line_stringRange
         (lines (createLayout (FixedPitch.plainText "a  b") 1000 FixedPitch.emptyLayout))
     = [mkRange 0 3]
  /\ map (fun l => map run_stringRange (line_runs l))
         (lines (createLayout (FixedPitch.plainText "a  b") 1000 FixedPitch.emptyLayout))
     = [[mkRange 0 3]].
Proof. vm_compute. repeat split; reflexivity. Qed.

(** C4: the one-character text "a", in a single style and narrower than
    the maximum width, is laid out with no line at all: the scan of the
    styles emits a range only at an offset above 0. *)
Theorem createLayout_single_character :
  String_length "a" = 1
  /\ getStringWidth (defaultFont : FixedPitch.Font) "a" = 10
  /\ runAttributesOf (FixedPitch.plainText "a") = []
  /\ lines (createLayout (FixedPitch.plainText "a") 1000 FixedPitch.emptyLayout) = [].
Proof. vm_compute. repeat split; reflexivity. Qed.

(** ** The width of the layout *)

Section Width.
Context {Font : Type} `{FontMetrics Font} `{NativeBackend Font}.

Lemma fillLayout_width (text : AttributedString Font) (maxWidth : float) :
  width (fillLayout text maxWidth) = maxWidth.
Proof.
  unfold fillLayout. destruct (createNativeLayout _ _); [reflexivity|].
  unfold createStandardLayout, TokenList_createLayout.
  destruct (standardLines _ _). reflexivity.
Qed.

Lemma recalculateWidth_lines_nil (text : AttributedString Font) (this : TextLayout Font) :
  lines (recalculateWidth text this) = [] <-> lines this = [].
Proof.
  unfold recalculateWidth. destruct (lines this) as [|first others] eqn:Hl.
  - rewrite Hl. tauto.
  - destruct (ReadingDirection_eqb _ _); simpl; rewrite ?Hl; split; discriminate.
Qed.

Lemma ReadingDirection_eqb_eq (a b : ReadingDirection) :
  ReadingDirection_eqb a b = true <-> a = b.
Proof. destruct a, b; simpl; split; congruence. Qed.

(** C7, as the code has it: the width of the layout is the wrap width
    when the layout has no line or the text reads right to left; for any
    other text [recalculateWidth] replaces it by the length of the union
    of the bounds of the lines. *)
Theorem createLayout_width (text : AttributedString Font) (maxWidth : float)
    (this : TextLayout Font) :
  (lines (createLayout text maxWidth this) = []
   \/ getReadingDirection text = rightToLeft ->
   width (createLayout text maxWidth this) = maxWidth)
  /\ (forall first others,
        lines (fillLayout text maxWidth) = first :: others ->
        getReadingDirection text <> rightToLeft ->
        width (createLayout text maxWidth this)
        = getLength (unionOfLineBounds first others)).
Proof.
  unfold createLayout. split.
  - intros Hcase. rewrite <- (fillLayout_width text maxWidth) at 2.
    unfold recalculateWidth.
    destruct (lines (fillLayout text maxWidth)) as [|first others] eqn:Hl; [reflexivity|].
    destruct (ReadingDirection_eqb (getReadingDirection text) rightToLeft) eqn:Hrtl;
      [reflexivity|].
    destruct Hcase as [Hnil|Hdir].
    + apply recalculateWidth_lines_nil in Hnil. congruence.
    + apply ReadingDirection_eqb_eq in Hdir. congruence.
  - intros first others Hl Hdir. unfold recalculateWidth. rewrite Hl.
    destruct (ReadingDirection_eqb (getReadingDirection text) rightToLeft) eqn:Hrtl.
    + apply ReadingDirection_eqb_eq in Hrtl. contradiction.
    + reflexivity.
Qed.

End Width.

(** C7 fails as stated: "ab" laid out at the wrap width 1000 ends with
    the width 20. *)
Lemma createLayout_width_not_maxWidth :
  width (createLayout (FixedPitch.plainText "ab") 1000 FixedPitch.emptyLayout) = 20%Q
  /\ Qeq_bool 20 1000 = false.
Proof. vm_compute. split; reflexivity. Qed.

Lemma createLayout_width_witness :
  lines (createLayout (FixedPitch.plainText "a") 1000 FixedPitch.emptyLayout) = []
  /\ width (createLayout (FixedPitch.plainText "a") 1000 FixedPitch.emptyLayout) = 1000%Q.
Proof.
  split; [vm_compute; reflexivity|].
  apply (proj1 (createLayout_width (FixedPitch.plainText "a") 1000 FixedPitch.emptyLayout)).
  left. vm_compute. reflexivity.
Defined.

(** ** Attribute resolution *)

Section StyleRanges.
Context {Font : Type} `{FontMetrics Font} `{NativeBackend Font}.

Lemma Range_make_ordered (a b : Z) : a <= b -> Range_make a b = mkRange a b.
Proof.
  intros Hab. unfold Range_make, jmax. simpl.
  destruct (a <? b) eqn:Hlt; [reflexivity|].
  apply Z.ltb_ge in Hlt. f_equal. lia.
Qed.

(** From any offset on, the scan ends by emitting the range that runs to
    the end of the string, in the style found one offset before the last. *)
Lemma scanStyles_last (text : AttributedString Font) (stringLength : Z) :
  forall (remaining : nat) (i rangeStart : Z) (lastFontAndColour : FontAndColour Font)
         (runAttributes : list (RunAttribute Font)),
    i + Z.of_nat remaining = stringLength ->
    (1 <= remaining)%nat ->
    0 <= i ->
    1 <= i \/ (2 <= remaining)%nat ->
    (1 <= i -> lastFontAndColour = effectiveStyle text (i - 1) /\ rangeStart <= i - 1) ->
    (i = 0 -> rangeStart = 0) ->
    exists earlier rs,
      scanStyles remaining text stringLength i rangeStart lastFontAndColour runAttributes
      = earlier ++ [mkRunAttribute (effectiveStyle text (stringLength - 2))
                                   (mkRange rs stringLength)]
      /\ rs <= stringLength - 2.
Proof.
  induction remaining as [|remaining IH];
    intros i rangeStart lastFC acc Hlen Hrem Hi Hmore Hlast Hzero; [lia|].
  destruct remaining as [|remaining'].
  - (* the last offset *)
    assert (Hi1 : 1 <= i) by (destruct Hmore as [?|?]; lia).
    destruct (Hlast Hi1) as [-> Hrs].
    simpl. replace (0 <? i) with true by (symmetry; apply Z.ltb_lt; lia).
    replace (i =? stringLength - 1) with true by (symmetry; apply Z.eqb_eq; lia).
    rewrite orb_true_r. simpl.
    replace (i <? stringLength - 1) with false by (symmetry; apply Z.ltb_ge; lia).
    exists acc, rangeStart. split; [|lia].
    rewrite Range_make_ordered by lia.
    replace (stringLength - 2) with (i - 1) by lia.
    replace stringLength with (i + 1) by lia. reflexivity.
  - (* an earlier offset *)
    cbn [scanStyles].
    match goal with
    | |- context [if ?c then _ else _] => destruct c eqn:Hemit
    end.
    + apply IH; [lia|lia|lia|lia| |lia].
      intros _. split; [f_equal; lia | lia].
    + apply IH; [lia|lia|lia|lia| |].
      * intros _. split; [f_equal; lia|].
        destruct (Z.eq_dec i 0) as [->|Hne]; [rewrite Hzero by reflexivity; lia|].
        destruct (Hlast ltac:(lia)) as [_ Hrs]. lia.
      * intros Hi0. lia.
Qed.

(** Every token [appendText] adds carries the font and the colour it was
    called with. *)
Lemma flushToken_style (cur : string) (font : Font) (colour : Colour) (ws : bool)
    (tokens : list (Token Font)) (tok : Token Font) :
  In tok (flushToken cur font colour ws tokens) ->
  In tok tokens \/ (tok_font tok = font /\ tok_colour tok = colour).
Proof.
  unfold flushToken. destruct (isNotEmpty cur); [|tauto].
  rewrite in_app_iff. simpl. intros [Hin|[<-|[]]]; [tauto|].
  right. split; reflexivity.
Qed.

Lemma appendText_loop_style (font : Font) (colour : Colour) (tok : Token Font) :
  forall (bound : nat) (t cur : string) (lastCharType : Z) (tokens : list (Token Font)),
    (String.length t <= bound)%nat ->
    In tok (appendText_loop font colour t cur lastCharType tokens) ->
    In tok tokens \/ (tok_font tok = font /\ tok_colour tok = colour).
Proof.
  induction bound as [|bound IH]; intros t cur lastCharType tokens Hlen Hin.
  - destruct t; [|simpl in Hlen; lia]. simpl in Hin. eapply flushToken_style; eassumption.
  - destruct t as [|c t']; simpl in Hin.
    + eapply flushToken_style; eassumption.
    + simpl in Hlen.
      destruct (Ascii.eqb c char_NUL); [eapply flushToken_style; eassumption|].
      destruct ((getCharacterType c =? 0) || negb (getCharacterType c =? lastCharType)).
      * assert (Hflush : forall t2 cur2,
                   (String.length t2 <= bound)%nat ->
                   In tok (appendText_loop font colour t2 cur2 (getCharacterType c)
                             (flushToken cur font colour
                                ((lastCharType =? 2) || (lastCharType =? 0)) tokens)) ->
                   In tok tokens \/ (tok_font tok = font /\ tok_colour tok = colour)).
        { intros t2 cur2 Hlen2 Hin2.
          destruct (IH _ _ _ _ Hlen2 Hin2) as [Hold|Hnew]; [|tauto].
          eapply flushToken_style; eassumption. }
        destruct t' as [|c2 t''].
        -- eapply Hflush; [|exact Hin]. simpl. lia.
        -- destruct (Ascii.eqb c char_CR && Ascii.eqb c2 char_LF);
             (eapply Hflush; [|exact Hin]; simpl in *; lia).
      * eapply IH; [|exact Hin]. lia.
Qed.

Lemma recalculateWidth_no_lines (text : AttributedString Font) (this : TextLayout Font) :
  lines this = [] -> recalculateWidth text this = this.
Proof. unfold recalculateWidth. intros ->. reflexivity. Qed.

End StyleRanges.

(** ** The line breaker *)

Section Breaker.
Context {Font : Type} `{FontMetrics Font} `{NativeBackend Font}.

Lemma setLastLineHeight_placed (totalLines height : Z) :
  forall (i : nat) (tokens : list (Token Font)),
    Token_placed <$> setLastLineHeight tokens totalLines i height = Token_placed <$> tokens.
Proof.
  induction i as [|i IH]; intros tokens; simpl; [reflexivity|].
  destruct (tokens !! i) as [tok|] eqn:Hi; [|reflexivity].
  destruct (tok_line tok =? totalLines); [|reflexivity].
  rewrite IH, list_fmap_insert. apply list_insert_id.
  rewrite list_lookup_fmap, Hi. reflexivity.
Qed.

Lemma Token_content_placed (t : Token Font) :
  Token_content (Token_placed t) = Token_content t.
Proof. reflexivity. Qed.

Lemma placed_content (l1 l2 : list (Token Font)) :
  Token_placed <$> l1 = Token_placed <$> l2 -> Token_content <$> l1 = Token_content <$> l2.
Proof.
  intros Heq.
  assert (Hc : forall l : list (Token Font),
             Token_content <$> l = Token_content <$> (Token_placed <$> l)).
  { intros l. rewrite <- list_fmap_compose. reflexivity. }
  rewrite (Hc l1), (Hc l2), Heq. reflexivity.
Qed.

Lemma placed_fields (a b : Token Font) :
  Token_placed a = Token_placed b ->
  tok_area a = tok_area b /\ tok_line a = tok_line b
  /\ tok_isWhitespace a = tok_isWhitespace b /\ tok_isNewLine a = tok_isNewLine b.
Proof.
  destruct a, b. unfold Token_placed, Token_setLineHeight. simpl.
  intros Heq. inversion Heq. auto.
Qed.

Lemma content_fields (a b : Token Font) :
  Token_content a = Token_content b ->
  tok_text a = tok_text b /\ rect_w (tok_area a) = rect_w (tok_area b)
  /\ tok_isWhitespace a = tok_isWhitespace b /\ tok_isNewLine a = tok_isNewLine b.
Proof.
  destruct a, b. unfold Token_content. simpl.
  intros Heq. inversion Heq. auto.
Qed.

Lemma fmap_lookup_eq {A B} (f : A -> B) (l1 l2 : list A) (j : nat) (a : A) :
  f <$> l1 = f <$> l2 -> l1 !! j = Some a -> exists b, l2 !! j = Some b /\ f a = f b.
Proof.
  intros Heq Hj.
  assert (Hl : (f <$> l1) !! j = Some (f a)) by (rewrite list_lookup_fmap, Hj; reflexivity).
  rewrite Heq, list_lookup_fmap in Hl.
  destruct (l2 !! j) as [b|]; [|discriminate]. exists b. split; [reflexivity|].
  simpl in Hl. congruence.
Qed.

Lemma fmap_eq_length {A B} (f : A -> B) (l1 l2 : list A) :
  f <$> l1 = f <$> l2 -> length l1 = length l2.
Proof. intros Heq. rewrite <- (length_fmap f l1), Heq. apply length_fmap. Qed.

Lemma layoutRuns_loop_spec (maxWidth : Z) :
  forall (remaining : nat) (s : BreakerState),
    (length (bs_tokens s) <= bs_i s + remaining)%nat ->
    Token_content <$> bs_tokens (layoutRuns_loop remaining maxWidth s)
    = Token_content <$> bs_tokens s
    /\ (forall j, (j < bs_i s)%nat ->
          Token_placed <$> (bs_tokens (layoutRuns_loop remaining maxWidth s) !! j)
          = Token_placed <$> (bs_tokens s !! j))
    /\ (forall t, bs_tokens (layoutRuns_loop remaining maxWidth s) !! bs_i s = Some t ->
          rect_x (tok_area t) = bs_x s /\ tok_line t = bs_totalLines s)
    /\ (forall (j : nat) (t next : Token Font), (bs_i s <= j)%nat ->
          bs_tokens (layoutRuns_loop remaining maxWidth s) !! j = Some t ->
          bs_tokens (layoutRuns_loop remaining maxWidth s) !! S j = Some next ->
          placedAfter maxWidth t next).
Proof.
  assert (Hdone : forall s : BreakerState,
             (length (bs_tokens s) <= bs_i s)%nat ->
             (forall t, bs_tokens s !! bs_i s = Some t ->
                rect_x (tok_area t) = bs_x s /\ tok_line t = bs_totalLines s)
             /\ (forall (j : nat) (t next : Token Font), (bs_i s <= j)%nat ->
                   bs_tokens s !! j = Some t -> bs_tokens s !! S j = Some next ->
                   placedAfter maxWidth t next)).
  { intros s Hlen. split.
    - intros t Ht. apply lookup_lt_Some in Ht. lia.
    - intros j t next Hj Ht _. apply lookup_lt_Some in Ht. lia. }
  induction remaining as [|remaining IH]; intros s Hlen.
  { simpl. destruct (Hdone s ltac:(lia)). auto. }
  cbn [layoutRuns_loop].
  destruct (bs_tokens s !! bs_i s) as [t0|] eqn:Ht0.
  2:{ apply lookup_ge_None in Ht0. destruct (Hdone s Ht0). auto. }
  set (t := Token_setLine _ _).
  set (tokens := <[bs_i s := t]> (bs_tokens s)).
  assert (Hcontent : Token_content <$> tokens = Token_content <$> bs_tokens s).
  { unfold tokens. rewrite list_fmap_insert. apply list_insert_id.
    rewrite list_lookup_fmap, Ht0. reflexivity. }
  assert (Hi : tokens !! bs_i s = Some t).
  { apply list_lookup_insert_eq. eapply lookup_lt_Some; eassumption. }
  assert (Hbefore : forall j, (j < bs_i s)%nat -> tokens !! j = bs_tokens s !! j).
  { intros j Hj. apply list_lookup_insert_ne. lia. }
  destruct (tokens !! (bs_i s + 1)%nat) as [nextTok|] eqn:Hnext.
  - (* another token follows *)
    set (x := int_add (bs_x s) (rect_w (tok_area t))).
    set (h := jmax (bs_h s) (rect_h (tok_area t))).
    set (raised := setLastLineHeight tokens (bs_totalLines s) (bs_i s + 1) h).
    assert (Hraised : Token_placed <$> raised = Token_placed <$> tokens)
      by apply setLastLineHeight_placed.
    set (s1 := if lineEndsAfter maxWidth t x nextTok
               then mkBreakerState raised (int_add (bs_totalLines s) 1) 0
                                   (int_add (bs_y s) h) 0 (bs_i s + 1)
               else mkBreakerState tokens (bs_totalLines s) x (bs_y s) h (bs_i s + 1)).
    assert (Hgo : (if lineEndsAfter maxWidth t x nextTok
                   then layoutRuns_loop remaining maxWidth
                          (mkBreakerState raised (int_add (bs_totalLines s) 1) 0
                                          (int_add (bs_y s) h) 0 (bs_i s + 1))
                   else layoutRuns_loop remaining maxWidth
                          (mkBreakerState tokens (bs_totalLines s) x (bs_y s) h (bs_i s + 1)))
                  = layoutRuns_loop remaining maxWidth s1).
    { unfold s1. destruct (lineEndsAfter maxWidth t x nextTok); reflexivity. }
    rewrite Hgo. clear Hgo.
    assert (Hs1p : Token_placed <$> bs_tokens s1 = Token_placed <$> tokens).
    { unfold s1. destruct (lineEndsAfter maxWidth t x nextTok); [exact Hraised|reflexivity]. }
    assert (Hs1i : bs_i s1 = (bs_i s + 1)%nat).
    { unfold s1. destruct (lineEndsAfter maxWidth t x nextTok); reflexivity. }
    assert (Hs1len : length (bs_tokens s1) = length (bs_tokens s)).
    { rewrite (fmap_eq_length _ _ _ Hs1p). unfold tokens. apply length_insert. }
    destruct (IH s1 ltac:(lia)) as (IHc & IHp & IHfirst & IHpairs).
    set (out := bs_tokens (layoutRuns_loop remaining maxWidth s1)) in *.
    assert (Hout_i : forall t', out !! bs_i s = Some t' -> Token_placed t' = Token_placed t).
    { intros t' Ht'. specialize (IHp (bs_i s) ltac:(lia)). rewrite Ht' in IHp.
      destruct (fmap_lookup_eq Token_placed tokens (bs_tokens s1) (bs_i s) t
                  (eq_sym Hs1p) Hi) as (b & Hb & Hbt).
      rewrite Hb in IHp. simpl in IHp. congruence. }
    split; [|split; [|split]].
    + rewrite IHc, (placed_content _ _ Hs1p). exact Hcontent.
    + intros j Hj. rewrite IHp by lia. rewrite <- (Hbefore j Hj).
      rewrite <- !list_lookup_fmap, Hs1p. reflexivity.
    + intros t' Ht'. destruct (placed_fields _ _ (Hout_i t' Ht')) as (Ha & Hl & _).
      rewrite Ha, Hl. split; reflexivity.
    + intros j t' next' Hj Ht' Hn'.
      destruct (decide (j = bs_i s)) as [->|Hne].
      2:{ apply (IHpairs j t' next'); [lia|assumption|assumption]. }
      destruct (placed_fields _ _ (Hout_i t' Ht')) as (Ha & Hl & _ & Hnl).
      replace (S (bs_i s)) with (bs_i s1) in Hn' by lia.
      destruct (IHfirst next' Hn') as (Hx1 & Hl1).
      rewrite Hs1i in Hn'.
      destruct (fmap_lookup_eq Token_content out tokens (bs_i s + 1) next') as (b & Hb & Hbc);
        [rewrite IHc; apply placed_content; exact Hs1p | exact Hn' |].
      assert (b = nextTok) by congruence. subst b.
      destruct (content_fields _ _ Hbc) as (_ & Hw & Hws & _).
      unfold placedAfter.
      assert (Hcond : lineEndsAfter maxWidth t' (cursorAfter t') next'
                      = lineEndsAfter maxWidth t x nextTok).
      { unfold lineEndsAfter, cursorAfter. rewrite Hnl, Hws, Hw, Ha. reflexivity. }
      rewrite Hcond. rewrite Hx1, Hl1, Hl. unfold s1, cursorAfter. rewrite Ha.
      destruct (lineEndsAfter maxWidth t x nextTok); split; reflexivity.
  - (* the last token: break *)
    simpl. apply lookup_ge_None in Hnext.
    assert (Hlen' : length tokens = length (bs_tokens s)) by apply length_insert.
    split; [exact Hcontent|]. split; [|split].
    + intros j Hj. rewrite Hbefore by exact Hj. reflexivity.
    + intros t' Ht'. assert (t' = t) by congruence. subst t'. split; reflexivity.
    + intros j t' next' Hj _ Hn'. apply lookup_lt_Some in Hn'. lia.
Qed.


Lemma int_add_1_neq (l : Z) : int_add l 1 <> l.
Proof.
  unfold int_add, int_wrap. change (2 ^ 32) with 4294967296.
  change (2 ^ 31) with 2147483648. intros Heq.
  pose proof (Z.div_mod (l + 1 + 2147483648) 4294967296 ltac:(lia)) as Hdm.
  lia.
Qed.

Lemma lineEndsAfter_spec (maxWidth : Z) (t next : Token Font) :
  lineEndsAfter maxWidth t (cursorAfter t) next = true <-> lineEndsBetween maxWidth t next.
Proof.
  unfold lineEndsAfter, lineEndsBetween.
  rewrite orb_true_iff, andb_true_iff, negb_true_iff, Z.ltb_lt. reflexivity.
Qed.

Lemma layoutRuns_placed (tokens : list (Token Font)) (totalLines maxWidth : Z) :
  Token_placed <$> fst (layoutRuns tokens totalLines maxWidth)
  = Token_placed <$> bs_tokens (layoutRuns_loop (length tokens) maxWidth
                                  (mkBreakerState tokens totalLines 0 0 0 0)).
Proof. unfold layoutRuns. simpl. apply setLastLineHeight_placed. Qed.

Lemma layoutRuns_content (tokens : list (Token Font)) (totalLines maxWidth : Z) :
  Token_content <$> fst (layoutRuns tokens totalLines maxWidth) = Token_content <$> tokens.
Proof.
  rewrite (placed_content _ _ (layoutRuns_placed tokens totalLines maxWidth)).
  apply (layoutRuns_loop_spec maxWidth (length tokens)
           (mkBreakerState tokens totalLines 0 0 0 0)).
  simpl. lia.
Qed.

Lemma placedAfter_placed (maxWidth : Z) (t t' next next' : Token Font) :
  Token_placed t = Token_placed t' -> Token_placed next = Token_placed next' ->
  placedAfter maxWidth t' next' -> placedAfter maxWidth t next.
Proof.
  intros Ht Hn.
  destruct (placed_fields _ _ Ht) as (Ha & Hl & _ & Hnl).
  destruct (placed_fields _ _ Hn) as (Ha' & Hl' & Hws' & _).
  unfold placedAfter, lineEndsAfter, cursorAfter.
  rewrite Ha, Hl, Hnl, Ha', Hl', Hws'. tauto.
Qed.

Lemma layoutRuns_placedAfter (tokens : list (Token Font)) (totalLines maxWidth : Z)
    (i : nat) (t next : Token Font) :
  fst (layoutRuns tokens totalLines maxWidth) !! i = Some t ->
  fst (layoutRuns tokens totalLines maxWidth) !! S i = Some next ->
  placedAfter maxWidth t next.
Proof.
  intros Ht Hn.
  destruct (fmap_lookup_eq _ _ _ _ _ (layoutRuns_placed tokens totalLines maxWidth) Ht)
    as (t' & Ht' & Hpt).
  destruct (fmap_lookup_eq _ _ _ _ _ (layoutRuns_placed tokens totalLines maxWidth) Hn)
    as (next' & Hn' & Hpn).
  apply (placedAfter_placed maxWidth t t' next next' Hpt Hpn).
  destruct (layoutRuns_loop_spec maxWidth (length tokens)
              (mkBreakerState tokens totalLines 0 0 0 0) ltac:(simpl; lia))
    as (_ & _ & _ & Hpairs).
  apply (Hpairs i t' next'); [simpl; lia | exact Ht' | exact Hn'].
Qed.

(** C2: between a token and the one that follows it, the line number
    changes exactly when the token is a line break, or the follower is not
    white space and does not fit behind it; so a white-space follower
    never starts a line, and every token comes out whole, with the text
    and the width it came in with, however wide it is. *)
Theorem layoutRuns_line_ends (tokens : list (Token Font)) (totalLines maxWidth : Z)
    (i : nat) (t next : Token Font) :
  fst (layoutRuns tokens totalLines maxWidth) !! i = Some t ->
  fst (layoutRuns tokens totalLines maxWidth) !! S i = Some next ->
  (tok_line next <> tok_line t <-> lineEndsBetween maxWidth t next)
  /\ (tok_line next = tok_line t \/ tok_line next = int_add (tok_line t) 1)
  /\ (tok_isWhitespace next = true -> tok_isNewLine t = false ->
      tok_line next = tok_line t)
  /\ Token_content <$> fst (layoutRuns tokens totalLines maxWidth)
     = Token_content <$> tokens.
Proof.
  intros Ht Hn.
  pose proof (layoutRuns_placedAfter tokens totalLines maxWidth i t next Ht Hn) as Hp.
  pose proof (lineEndsAfter_spec maxWidth t next) as Hspec.
  unfold placedAfter in Hp.
  destruct (lineEndsAfter maxWidth t (cursorAfter t) next) eqn:Hends.
  - destruct Hp as [Hline _].
    assert (Hb : lineEndsBetween maxWidth t next) by (apply Hspec; reflexivity).
    split; [|split; [|split]].
    + split; [intros _; exact Hb | intros _; rewrite Hline; apply int_add_1_neq].
    + right. exact Hline.
    + intros Hws Hnl. destruct Hb as [Hb|[Hb _]]; congruence.
    + apply layoutRuns_content.
  - destruct Hp as [Hline _].
    assert (Hb : ~ lineEndsBetween maxWidth t next).
    { intros Hb. apply Hspec in Hb. discriminate. }
    split; [|split; [|split]].
    + split; [intros Hne; contradiction | intros Hb'; contradiction].
    + left. exact Hline.
    + intros _ _. exact Hline.
    + apply layoutRuns_content.
Qed.

End Breaker.

Example wide_token_overflows :
  map (fun t => (tok_text t, rect_x (tok_area t), rect_w (tok_area t), tok_line t))
      (fst (layoutRuns (addTextRuns (FixedPitch.plainText "aaaa bbbb") []) 0 30))
  = [("aaaa"%string, 0, 40, 0); (" "%string, 40, 10, 0); ("bbbb"%string, 0, 40, 1)].
Proof. vm_compute. reflexivity. Qed.

Lemma layoutRuns_line_ends_witness :
  exists t next : Token FixedPitch.Font,
    fst (layoutRuns (addTextRuns (FixedPitch.plainText "aaaa bbbb") []) 0 30) !! 1%nat
    = Some t
    /\ fst (layoutRuns (addTextRuns (FixedPitch.plainText "aaaa bbbb") []) 0 30) !! 2%nat
       = Some next
    /\ (tok_line next <> tok_line t <-> lineEndsBetween 30 t next)
    /\ (tok_line next = tok_line t \/ tok_line next = int_add (tok_line t) 1)
    /\ (tok_isWhitespace next = true -> tok_isNewLine t = false ->
        tok_line next = tok_line t)
    /\ Token_content <$> fst (layoutRuns (addTextRuns (FixedPitch.plainText "aaaa bbbb") [])
                                         0 30)
       = Token_content <$> addTextRuns (FixedPitch.plainText "aaaa bbbb") [].
Proof.
  eexists _, _. split; [vm_compute; reflexivity|]. split; [vm_compute; reflexivity|].
  apply (layoutRuns_line_ends (addTextRuns (FixedPitch.plainText "aaaa bbbb") []) 0 30 1);
    vm_compute; reflexivity.
Defined.

Example lastCharStyled_font :
  fc_font (effectiveStyle FixedPitch.lastCharStyled 1) = Some 20
  /\ map (fun t => (tok_text t, tok_font t)) (addTextRuns FixedPitch.lastCharStyled [])
     = [("ab"%string, 10)].
Proof. vm_compute. split; reflexivity. Qed.

(** ** Justification *)

Section Justify.
Context {Font : Type} `{FontMetrics Font} `{NativeBackend Font}.

Lemma centred_flag_selected (flags : Z) :
  Z.land flags Justification.horizontallyCentred <> 0 ->
  negb (Z.land flags (Z.lor Justification.right Justification.horizontallyCentred) =? 0)
  = true
  /\ negb (Z.land flags Justification.horizontallyCentred =? 0) = true.
Proof.
  intros Hc. split; apply negb_true_iff, Z.eqb_neq; [|exact Hc].
  intros Hboth. apply Hc.
  change Justification.horizontallyCentred
    with (Z.land (Z.lor Justification.right Justification.horizontallyCentred)
                 Justification.horizontallyCentred).
  rewrite Z.land_assoc, Hboth. reflexivity.
Qed.

Lemma Line_shiftX_shiftedBy (line : Line Font) (dx amount : float) :
  (dx == amount)%Q -> shiftedBy amount line (Line_shiftX line dx).
Proof.
  intros Hdx. unfold shiftedBy, Line_shiftX, Line_setOrigin. simpl.
  rewrite Hdx. repeat split; reflexivity.
Qed.

(** The justification pass on a single line 100 wide in a layout 200
    wide: the line moves right by half the difference. *)
Lemma justifyLines_centred_single (flags : Z) (tokens : list (Token Font))
    (line : Line Font) :
  Z.land flags Justification.horizontallyCentred <> 0 ->
  getLineWidth tokens 0 = 100 ->
  exists after, justifyLines flags 200 tokens [line] = [after] /\ shiftedBy 50 line after.
Proof.
  intros Hflag Hw. unfold justifyLines.
  destruct (centred_flag_selected flags Hflag) as [-> ->]. simpl.
  change (Z.of_nat 0) with 0. rewrite Hw.
  eexists. split; [reflexivity|].
  apply Line_shiftX_shiftedBy. vm_compute. reflexivity.
Qed.

(** C6, as the code has it: the justification pass of the standard layout
    moves the single line right by 50; [createLayout] hands the line out
    in that place for a text that reads right to left, and for any other
    text [recalculateWidth] then moves it left by the start of its
    bounds. *)
Theorem centred_line_shift (text : AttributedString Font) (maxWidth : float)
    (this : TextLayout Font) (tokens : list (Token Font)) (line : Line Font) :
  standardLines text (clearedLayout text maxWidth) = (tokens, [line]) ->
  Z.land (getJustification text) Justification.horizontallyCentred <> 0 ->
  float_to_int maxWidth = 200 ->
  getLineWidth tokens 0 = 100 ->
  exists after,
    shiftedBy 50 line after
    /\ lines (createStandardLayout text (clearedLayout text maxWidth)) = [after]
    /\ (createNativeLayout text (clearedLayout text maxWidth) = None ->
        getReadingDirection text = rightToLeft ->
        lines (createLayout text maxWidth this) = [after])
    /\ (createNativeLayout text (clearedLayout text maxWidth) = None ->
        getReadingDirection text <> rightToLeft ->
        lines (createLayout text maxWidth this)
        = [Line_shiftX after (- getStart (getLineBoundsX after))%Q]).
Proof.
  intros Hstd Hflag Hwidth Hmeasured.
  destruct (justifyLines_centred_single (getJustification text) tokens line Hflag Hmeasured)
    as (after & Hjust & Hshift).
  assert (Hlines : lines (createStandardLayout text (clearedLayout text maxWidth)) = [after]).
  { unfold createStandardLayout, TokenList_createLayout. rewrite Hstd. simpl.
    rewrite Hwidth. exact Hjust. }
  exists after. split; [exact Hshift|]. split; [exact Hlines|].
  assert (Hfill : createNativeLayout text (clearedLayout text maxWidth) = None ->
                  lines (fillLayout text maxWidth) = [after]).
  { intros Hnative. unfold fillLayout. fold (clearedLayout text maxWidth).
    rewrite Hnative. exact Hlines. }
  unfold createLayout, recalculateWidth.
  split; intros Hnative Hdir; specialize (Hfill Hnative);
    destruct (fillLayout text maxWidth) as [filled w j]; simpl in Hfill; subst filled;
    cbn [lines].
  - rewrite (proj2 (ReadingDirection_eqb_eq _ _) Hdir). reflexivity.
  - destruct (ReadingDirection_eqb (getReadingDirection text) rightToLeft) eqn:Hrtl.
    + apply ReadingDirection_eqb_eq in Hrtl. contradiction.
    + reflexivity.
Qed.

End Justify.

(** C6 fails as stated: ten letters 100 wide, centred in a layout 200
    wide and read in the natural direction, have their line at x = 0
    before the justification pass and at x = 0 in the layout that
    [createLayout] returns. *)
Lemma centred_shift_cancelled :
  getLineWidth (fst (standardLines (FixedPitch.centredText natural)
                                   (clearedLayout (FixedPitch.centredText natural) 200)))
               0 = 100
  /\ map (fun l => pt_x (lineOrigin l))
         (snd (standardLines (FixedPitch.centredText natural)
                             (clearedLayout (FixedPitch.centredText natural) 200)))
     = [0%Q]
  /\ map (fun l => Qeq_bool (pt_x (lineOrigin l)) 0)
         (lines (createLayout (FixedPitch.centredText natural) 200 FixedPitch.emptyLayout))
     = [true]
  /\ Qeq_bool 0 (0 + 50) = false.
Proof. vm_compute. repeat split; reflexivity. Qed.

Lemma centred_line_shift_witness :
  exists after,
    map (fun l => pt_x (lineOrigin l))
        (snd (standardLines (FixedPitch.centredText rightToLeft)
                            (clearedLayout (FixedPitch.centredText rightToLeft) 200)))
    = [0%Q]
    /\ (pt_x (lineOrigin after) == 50)%Q
    /\ lines (createLayout (FixedPitch.centredText rightToLeft) 200 FixedPitch.emptyLayout)
       = [after].
Proof.
  destruct (centred_line_shift (FixedPitch.centredText rightToLeft) 200
              FixedPitch.emptyLayout
              (fst (standardLines (FixedPitch.centredText rightToLeft)
                                  (clearedLayout (FixedPitch.centredText rightToLeft) 200)))
              (hd Line_new
                  (snd (standardLines (FixedPitch.centredText rightToLeft)
                                      (clearedLayout (FixedPitch.centredText rightToLeft) 200)))))
    as (after & Hshift & _ & Hrtl & _).
  - vm_compute. reflexivity.
  - vm_compute. discriminate.
  - vm_compute. reflexivity.
  - vm_compute. reflexivity.
  - exists after. split; [vm_compute; reflexivity|]. split.
    + destruct Hshift as (Hx & _). rewrite Hx. vm_compute. reflexivity.
    + apply Hrtl; reflexivity.
Defined.

(** ** The balancer *)

Section Balancer.
Context {Font : Type} `{FontMetrics Font} `{NativeBackend Font}.

Lemma Qltb_lt (a b : Q) : Qltb a b = true <-> (a < b)%Q.
Proof. unfold Qltb, Qlt. apply Z.ltb_lt. Qed.

Lemma Qltb_ge (a b : Q) : Qltb a b = false <-> (b <= a)%Q.
Proof. unfold Qltb, Qle. apply Z.ltb_ge. Qed.

Lemma jmin_le_jmax (a b : Q) : (jmin a b <= jmax a b)%Q.
Proof.
  unfold jmin, jmax. simpl.
  destruct (Qltb b a) eqn:Hba, (Qltb a b) eqn:Hab;
    rewrite ?Qltb_lt, ?Qltb_ge in *; lra.
Qed.

Lemma lineProportion_ge_1 (line1 line2 : float) : (1 <= lineProportion line1 line2)%Q.
Proof.
  unfold lineProportion.
  destruct (Qltb 0 (jmin line1 line2)) eqn:Hshort; [|lra].
  apply Qltb_lt in Hshort. apply Qle_shift_div_l; [exact Hshort|].
  rewrite Qmult_1_l. apply jmin_le_jmax.
Qed.

Lemma lineProportion_above_threshold (line1 line2 : float) :
  Qltb float_0_9 (lineProportion line1 line2) = true.
Proof.
  apply Qltb_lt. apply Qlt_le_trans with (y := 1%Q); [reflexivity|].
  apply lineProportion_ge_1.
Qed.

Lemma half_below (maxWidth : float) :
  (0 < maxWidth)%Q -> Qltb (maxWidth / 2) maxWidth = true.
Proof.
  intros Hpos. apply Qltb_lt.
  change (maxWidth / 2)%Q with (maxWidth * (1 # 2))%Q. lra.
Qed.

Lemma half_not_below (maxWidth : float) :
  (maxWidth <= 0)%Q -> Qltb (maxWidth / 2) maxWidth = false.
Proof.
  intros Hneg. apply Qltb_ge.
  change (maxWidth / 2)%Q with (maxWidth * (1 # 2))%Q. lra.
Qed.

(** One pass of the loop is the last one whenever the loop is entered. *)
Lemma balanceLoop_first_pass (fuel : nat) (text : AttributedString Font)
    (minimumWidth : float) (s : BalanceState) :
  Qltb minimumWidth (bal_maxWidth s) = true ->
  balanceLoop (S fuel) text minimumWidth s
  = Returned (createLayout text (bal_maxWidth s) (bal_layout s)).
Proof.
  intros Henter. cbn [balanceLoop]. rewrite Henter.
  destruct (getNumLines _ <? 2); [reflexivity|].
  destruct (lines _ !! _) as [last1|]; [|reflexivity].
  destruct (lines _ !! _) as [last2|]; [|reflexivity].
  rewrite lineProportion_above_threshold. reflexivity.
Qed.

(** C9, as the code has it: the proportion of two line lengths is always
    above the threshold, so for a positive maximum width and at least one
    pass of fuel the balanced layout is the layout of [createLayout] at
    that width; for a maximum width of 0 or below the loop is not entered
    and the layout is left as it was. *)
Theorem balanced_is_createLayout (fuel : nat) (text : AttributedString Font)
    (maxWidth : float) (this : TextLayout Font) :
  (forall line1 line2 : float,
      (1 <= lineProportion line1 line2)%Q
      /\ Qltb float_0_9 (lineProportion line1 line2) = true)
  /\ ((0 < fuel)%nat -> (0 < maxWidth)%Q ->
      createLayoutWithBalancedLineLengths fuel text maxWidth this
      = Some (createLayout text maxWidth this))
  /\ ((maxWidth <= 0)%Q ->
      createLayoutWithBalancedLineLengths fuel text maxWidth this = Some this).
Proof.
  split; [|split].
  - intros line1 line2. split;
      [apply lineProportion_ge_1 | apply lineProportion_above_threshold].
  - intros Hfuel Hpos. unfold createLayoutWithBalancedLineLengths.
    destruct fuel as [|fuel]; [lia|].
    rewrite balanceLoop_first_pass by (apply half_below; exact Hpos). reflexivity.
  - intros Hneg. unfold createLayoutWithBalancedLineLengths.
    assert (Hexit : balanceLoop fuel text (maxWidth / 2)
                      (mkBalanceState this maxWidth maxWidth 0)
                    = Exhausted (mkBalanceState this maxWidth maxWidth 0)).
    { destruct fuel; cbn [balanceLoop bal_maxWidth];
        rewrite (half_not_below maxWidth Hneg); reflexivity. }
    rewrite Hexit. cbn [bal_bestWidth bal_maxWidth bal_layout].
    rewrite (proj2 (Qeq_bool_iff maxWidth maxWidth) (Qeq_refl maxWidth)). reflexivity.
Qed.

End Balancer.

(** C9 fails as stated: at the maximum width 0 the balanced layout of "ab"
    is the untouched empty layout, while [createLayout] builds one line. *)
Lemma balanced_not_createLayout_at_zero :
  createLayoutWithBalancedLineLengths 1 (FixedPitch.plainText "ab") 0 FixedPitch.emptyLayout
  = Some FixedPitch.emptyLayout
  /\ lines FixedPitch.emptyLayout = []
  /\ length (lines (createLayout (FixedPitch.plainText "ab") 0 FixedPitch.emptyLayout))
     = 1%nat.
Proof. vm_compute. repeat split; reflexivity. Qed.

Lemma balanced_is_createLayout_witness :
  createLayoutWithBalancedLineLengths 1 (FixedPitch.plainText "aaaa bbbb") 50
                                      FixedPitch.emptyLayout
  = Some (createLayout (FixedPitch.plainText "aaaa bbbb") 50 FixedPitch.emptyLayout).
Proof.
  apply (proj1 (proj2 (balanced_is_createLayout 1 (FixedPitch.plainText "aaaa bbbb") 50
                         FixedPitch.emptyLayout))).
  - lia.
  - reflexivity.
Defined.

(** * Further properties *)

(** ** The tokenizer *)

Section Tokenizer.
Context {Font : Type} `{FontMetrics Font} `{NativeBackend Font}.

Lemma string_app_nil_r (s : string) : (s ++ "")%string = s.
Proof. induction s as [|c s IH]; simpl; [reflexivity | rewrite IH; reflexivity]. Qed.

Lemma string_app_assoc (a b c : string) : ((a ++ b) ++ c)%string = (a ++ (b ++ c))%string.
Proof. induction a as [|x a IH]; simpl; [reflexivity | rewrite IH; reflexivity]. Qed.

Lemma tokensText_app (a b : list (Token Font)) :
  tokensText (a ++ b) = (tokensText a ++ tokensText b)%string.
Proof.
  induction a as [|t a IH]; simpl; [reflexivity|].
  rewrite IH, string_app_assoc. reflexivity.
Qed.

Lemma flushToken_text (cur : string) (font : Font) (colour : Colour) (ws : bool)
    (tokens : list (Token Font)) :
  tokensText (flushToken cur font colour ws tokens) = (tokensText tokens ++ cur)%string.
Proof.
  unfold flushToken. destruct cur as [|c cur]; simpl.
  - rewrite string_app_nil_r. reflexivity.
  - rewrite tokensText_app. simpl. rewrite string_app_nil_r. reflexivity.
Qed.

Lemma appendText_loop_text (font : Font) (colour : Colour) :
  forall (bound : nat) (t cur : string) (lastCharType : Z) (tokens : list (Token Font)),
    (String.length t <= bound)%nat ->
    containsChar t char_NUL = false ->
    tokensText (appendText_loop font colour t cur lastCharType tokens)
    = (tokensText tokens ++ cur ++ t)%string.
Proof.
  induction bound as [|bound IH]; intros t cur lastCharType tokens Hlen Hnul.
  - destruct t; [|simpl in Hlen; lia]. simpl.
    rewrite flushToken_text, string_app_nil_r. reflexivity.
  - destruct t as [|c t']; simpl.
    + rewrite flushToken_text, string_app_nil_r. reflexivity.
    + simpl in Hlen, Hnul. apply orb_false_iff in Hnul. destruct Hnul as [Hc Hnul].
      rewrite Hc.
      destruct ((getCharacterType c =? 0) || negb (getCharacterType c =? lastCharType)).
      * destruct t' as [|c2 t''].
        -- rewrite IH by (simpl; try lia; reflexivity).
           rewrite flushToken_text, string_app_assoc. reflexivity.
        -- destruct (Ascii.eqb c char_CR && Ascii.eqb c2 char_LF).
           ++ simpl in Hnul. apply orb_false_iff in Hnul. destruct Hnul as [_ Hnul].
              rewrite IH by (simpl in *; try lia; exact Hnul).
              rewrite flushToken_text, string_app_assoc. reflexivity.
           ++ rewrite IH by (simpl in *; try lia; exact Hnul).
              rewrite flushToken_text, string_app_assoc. reflexivity.
      * rewrite IH by (try lia; exact Hnul).
        unfold appendChar, charToString. rewrite !string_app_assoc. reflexivity.
Qed.

Lemma getCharacterType_cases (c : ascii) :
  (getCharacterType c = 0 /\ (c = char_CR \/ c = char_LF))
  \/ (getCharacterType c = 1 /\ c <> char_CR /\ c <> char_LF)
  \/ (getCharacterType c = 2 /\ c <> char_CR /\ c <> char_LF).
Proof.
  unfold getCharacterType.
  destruct (Ascii.eqb c char_CR) eqn:Hcr; [left; split; [reflexivity|]; left; apply Ascii.eqb_eq; exact Hcr|].
  destruct (Ascii.eqb c char_LF) eqn:Hlf; [left; split; [reflexivity|]; right; apply Ascii.eqb_eq; exact Hlf|].
  apply Ascii.eqb_neq in Hcr, Hlf. simpl.
  destruct (isWhitespace c); [right; right | right; left]; auto.
Qed.

Lemma allOfType_no_break (k : Z) (s : string) :
  k <> 0 -> allOfType k s ->
  containsChar s char_LF || containsChar s char_CR = false.
Proof.
  intros Hk. induction s as [|c s IH]; simpl; [reflexivity|].
  intros [Hc Hs]. specialize (IH Hs). apply orb_false_iff in IH. destruct IH as [-> ->].
  rewrite !orb_false_r.
  destruct (getCharacterType_cases c) as [[Hzero _]|[[_ [Hcr Hlf]]|[_ [Hcr Hlf]]]]; [congruence| |];
    apply Ascii.eqb_neq in Hcr, Hlf; rewrite Hcr, Hlf; reflexivity.
Qed.

Lemma allOfType_app (k : Z) (s : string) (c : ascii) :
  allOfType k s -> getCharacterType c = k -> allOfType k (appendChar s c).
Proof.
  intros Hs Hc. induction s as [|d s IH]; simpl in *; [tauto|].
  destruct Hs as [Hd Hs]. split; [exact Hd | apply IH; exact Hs].
Qed.

Lemma isLineBreak_newline (s : string) :
  isLineBreak s -> containsChar s char_LF || containsChar s char_CR = true.
Proof. intros [-> | [-> | ->]]; reflexivity. Qed.

Lemma flushToken_shape (cur : string) (font : Font) (colour : Colour) (lastCharType : Z)
    (ws : bool) (tokens : list (Token Font)) :
  Forall tokenShape tokens ->
  pendingShape cur lastCharType ->
  (lastCharType = 2 -> ws = true) -> (lastCharType = 1 -> ws = false) ->
  Forall tokenShape (flushToken cur font colour ws tokens).
Proof.
  intros Htokens Hcur Hws2 Hws1. unfold flushToken.
  destruct (isNotEmpty cur) eqn:Hne; [|exact Htokens].
  apply Forall_app. split; [exact Htokens|]. constructor; [|constructor].
  unfold tokenShape, Token_make. simpl.
  destruct Hcur as [[-> _]|[[Hbreak _]|(Hnonempty & Hall & Hkind)]].
  - discriminate.
  - left. split; [exact Hbreak | apply isLineBreak_newline; exact Hbreak].
  - rewrite (allOfType_no_break lastCharType cur) by (try exact Hall; lia).
    destruct Hkind as [-> | ->].
    + right. right. rewrite Hws1 by reflexivity. auto.
    + right. left. rewrite Hws2 by reflexivity. auto.
Qed.

Lemma pendingShape_single (c : ascii) :
  pendingShape (charToString c) (getCharacterType c).
Proof.
  unfold pendingShape, charToString, isLineBreak. simpl.
  destruct (getCharacterType_cases c) as [[Hk [-> | ->]] | [[Hk _] | [Hk _]]].
  - right. left. auto.
  - right. left. auto.
  - right. right. split; [discriminate|]. auto.
  - right. right. split; [discriminate|]. auto.
Qed.

Lemma appendText_loop_shape (font : Font) (colour : Colour) :
  forall (bound : nat) (t cur : string) (lastCharType : Z) (tokens : list (Token Font)),
    (String.length t <= bound)%nat ->
    Forall tokenShape tokens ->
    pendingShape cur lastCharType ->
    Forall tokenShape (appendText_loop font colour t cur lastCharType tokens).
Proof.
  assert (Hend : forall cur lastCharType tokens,
             Forall tokenShape tokens -> pendingShape cur lastCharType ->
             Forall tokenShape (flushToken cur font colour (lastCharType =? 2) tokens)).
  { intros cur lastCharType tokens Htokens Hcur.
    apply (flushToken_shape cur font colour lastCharType); auto; intros ->; reflexivity. }
  assert (Hmid : forall cur lastCharType tokens,
             Forall tokenShape tokens -> pendingShape cur lastCharType ->
             Forall tokenShape
               (flushToken cur font colour ((lastCharType =? 2) || (lastCharType =? 0)) tokens)).
  { intros cur lastCharType tokens Htokens Hcur.
    apply (flushToken_shape cur font colour lastCharType); auto; intros ->; reflexivity. }
  induction bound as [|bound IH]; intros t cur lastCharType tokens Hlen Htokens Hcur.
  - destruct t; [|simpl in Hlen; lia]. simpl. apply Hend; assumption.
  - destruct t as [|c t']; simpl; [apply Hend; assumption|].
    simpl in Hlen.
    destruct (Ascii.eqb c char_NUL); [apply Hend; assumption|].
    destruct ((getCharacterType c =? 0) || negb (getCharacterType c =? lastCharType)) eqn:Hnew.
    + destruct t' as [|c2 t''].
      * apply IH; [simpl; lia | apply Hmid; assumption | apply pendingShape_single].
      * destruct (Ascii.eqb c char_CR && Ascii.eqb c2 char_LF) eqn:Hcrlf.
        -- apply IH; [simpl in *; lia | apply Hmid; assumption |].
           apply andb_true_iff in Hcrlf. destruct Hcrlf as [Hc Hc2].
           apply Ascii.eqb_eq in Hc, Hc2. subst c c2.
           right. left. split; [left; reflexivity | reflexivity].
        -- apply IH; [simpl in *; lia | apply Hmid; assumption | apply pendingShape_single].
    + apply orb_false_iff in Hnew. destruct Hnew as [Hnot0 Hsame].
      apply Z.eqb_neq in Hnot0. apply negb_false_iff, Z.eqb_eq in Hsame.
      apply IH; [lia | assumption |]. rewrite Hsame.
      destruct Hcur as [[_ Hl]|[[_ Hl]|(Hnonempty & Hall & Hkind)]]; try lia.
      right. right. split; [|split; [|exact Hkind]].
      * destruct cur; [contradiction | discriminate].
      * apply allOfType_app; [exact Hall | exact Hsame].
Qed.

End Tokenizer.

Section Maximal.
Context {Font : Type} `{FontMetrics Font} `{NativeBackend Font}.

Lemma flushed_class (cur : string) (font : Font) (colour : Colour) (lastCharType : Z)
    (ws : bool) :
  pendingShape cur lastCharType -> cur <> EmptyString ->
  (lastCharType = 2 -> ws = true) -> (lastCharType = 1 -> ws = false) ->
  tokenClass (Token_make cur font colour ws) = lastCharType.
Proof.
  intros Hcur Hne Hws2 Hws1. unfold tokenClass, Token_make. simpl.
  destruct Hcur as [[-> _]|[[Hbreak ->]|(_ & Hall & Hkind)]].
  - contradiction.
  - rewrite (isLineBreak_newline cur Hbreak). reflexivity.
  - rewrite (allOfType_no_break lastCharType cur) by (try exact Hall; lia).
    destruct Hkind as [-> | ->].
    + rewrite Hws1 by reflexivity. reflexivity.
    + rewrite Hws2 by reflexivity. reflexivity.
Qed.

Lemma flushToken_alternate (k : nat) (tokens : list (Token Font)) (cur : string)
    (font : Font) (colour : Colour) (lastCharType : Z) (ws : bool) :
  appendInvariant k tokens cur lastCharType ->
  (lastCharType = 2 -> ws = true) -> (lastCharType = 1 -> ws = false) ->
  (k <= length (flushToken cur font colour ws tokens))%nat
  /\ classesAlternate k (flushToken cur font colour ws tokens)
  /\ (forall t, (k < length (flushToken cur font colour ws tokens))%nat ->
        last (flushToken cur font colour ws tokens) = Some t ->
        tokenClass t = lastCharType).
Proof.
  intros (Hk & Hcur & Halt & Hempty & Hlast) Hws2 Hws1. unfold flushToken.
  destruct (isNotEmpty cur) eqn:Hne.
  - assert (Hcur' : cur <> EmptyString) by (intros ->; discriminate).
    pose proof (flushed_class cur font colour lastCharType ws Hcur Hcur' Hws2 Hws1) as Hclass.
    split; [rewrite length_app; simpl; lia|]. split.
    + intros i a b Hi Ha Hb.
      destruct (decide (S i < length tokens)%nat) as [Hin|Hout].
      * rewrite lookup_app_l in Ha, Hb by lia. apply (Halt i a b Hi Ha Hb).
      * assert (Hib : S i = length tokens).
        { apply lookup_lt_Some in Hb. rewrite length_app in Hb. simpl in Hb. lia. }
        rewrite lookup_app_l in Ha by lia.
        rewrite lookup_app_r in Hb by lia.
        replace (S i - length tokens)%nat with 0%nat in Hb by lia.
        simpl in Hb. injection Hb as <-. rewrite Hclass.
        apply Hlast; [lia|]. rewrite last_lookup.
        replace (Nat.pred (length tokens)) with i by lia. exact Ha.
    + intros t _ Ht. rewrite last_snoc in Ht. injection Ht as <-. exact Hclass.
  - assert (Hcur' : cur = EmptyString) by (destruct cur; [reflexivity | discriminate]).
    split; [exact Hk|]. split; [exact Halt|].
    intros t Hlt _. specialize (Hempty Hcur'). lia.
Qed.

Lemma appendText_loop_alternate (font : Font) (colour : Colour) (k : nat) :
  forall (bound : nat) (t cur : string) (lastCharType : Z) (tokens : list (Token Font)),
    (String.length t <= bound)%nat ->
    appendInvariant k tokens cur lastCharType ->
    classesAlternate k (appendText_loop font colour t cur lastCharType tokens).
Proof.
  assert (Hend : forall cur lastCharType tokens,
             appendInvariant k tokens cur lastCharType ->
             classesAlternate k (flushToken cur font colour (lastCharType =? 2) tokens)).
  { intros cur lastCharType tokens Hinv.
    apply (flushToken_alternate k tokens cur font colour lastCharType); auto;
      intros ->; reflexivity. }
  assert (Hmid : forall cur lastCharType tokens (cur' : string) (charType : Z),
             appendInvariant k tokens cur lastCharType ->
             pendingShape cur' charType -> cur' <> EmptyString ->
             charType = 0 \/ charType <> lastCharType ->
             appendInvariant k
               (flushToken cur font colour ((lastCharType =? 2) || (lastCharType =? 0)) tokens)
               cur' charType).
  { intros cur lastCharType tokens cur' charType Hinv Hshape Hne Hnew.
    destruct (flushToken_alternate k tokens cur font colour lastCharType
                ((lastCharType =? 2) || (lastCharType =? 0)) Hinv)
      as (Hk & Halt & Hlast); [intros ->; reflexivity | intros ->; reflexivity |].
    split; [exact Hk|]. split; [exact Hshape|]. split; [exact Halt|].
    split; [intros Hc; contradiction|].
    intros t Hlt Ht. rewrite (Hlast t Hlt Ht).
    destruct Hnew as [->|Hnew]; [auto|].
    right. right. intros Heq. apply Hnew. symmetry. exact Heq. }
  induction bound as [|bound IH]; intros t cur lastCharType tokens Hlen Hinv.
  - destruct t; [|simpl in Hlen; lia]. simpl. apply Hend. exact Hinv.
  - destruct t as [|c t']; simpl; [apply Hend; exact Hinv|].
    simpl in Hlen.
    destruct (Ascii.eqb c char_NUL); [apply Hend; exact Hinv|].
    destruct ((getCharacterType c =? 0) || negb (getCharacterType c =? lastCharType)) eqn:Hnew.
    + assert (Hnew' : getCharacterType c = 0 \/ getCharacterType c <> lastCharType).
      { apply orb_true_iff in Hnew. destruct Hnew as [Hz|Hd].
        - left. apply Z.eqb_eq. exact Hz.
        - right. apply negb_true_iff, Z.eqb_neq in Hd. exact Hd. }
      destruct t' as [|c2 t''].
      * apply IH; [simpl; lia|].
        apply Hmid; [exact Hinv | apply pendingShape_single | discriminate | exact Hnew'].
      * destruct (Ascii.eqb c char_CR && Ascii.eqb c2 char_LF) eqn:Hcrlf.
        -- apply IH; [simpl in *; lia|].
           apply andb_true_iff in Hcrlf. destruct Hcrlf as [Hc Hc2].
           apply Ascii.eqb_eq in Hc, Hc2. subst c c2.
           apply Hmid; [exact Hinv | | discriminate | left; reflexivity].
           right. left. split; [left; reflexivity | reflexivity].
        -- apply IH; [simpl in *; lia|].
           apply Hmid; [exact Hinv | apply pendingShape_single | discriminate | exact Hnew'].
    + apply orb_false_iff in Hnew. destruct Hnew as [Hnot0 Hsame].
      apply Z.eqb_neq in Hnot0. apply negb_false_iff, Z.eqb_eq in Hsame.
      apply IH; [lia|]. rewrite Hsame.
      destruct Hinv as (Hk & Hcur & Halt & Hempty & Hlast).
      destruct Hcur as [[_ Hl]|[[_ Hl]|(Hnonempty & Hall & Hkind)]]; try lia.
      split; [exact Hk|]. split; [|split; [exact Halt|split; [|exact Hlast]]].
      * right. right. split; [|split; [|exact Hkind]].
        -- destruct cur; [contradiction | discriminate].
        -- apply allOfType_app; [exact Hall | exact Hsame].
      * intros Hc. destruct cur; [contradiction | discriminate].
Qed.

(** X1: the tokens of one call of [appendText] are as long as they can be:
    among the tokens the call adds, two neighbours are never both words
    nor both white space. *)
Theorem appendText_maximal (text : AttributedString Font) (stringRange : Range Z)
    (font : Font) (colour : Colour) (tokens : list (Token Font)) :
  classesAlternate (length tokens) (appendText text stringRange font colour tokens).
Proof.
  unfold appendText.
  apply appendText_loop_alternate with (bound := String.length
    (substring (getText text) (getStart stringRange) (getEnd stringRange))); [lia|].
  split; [lia|]. split; [left; split; reflexivity|].
  split; [intros i a b Hi Ha Hb; apply lookup_lt_Some in Hb; lia|].
  split; [reflexivity | intros t Hlt; lia].
Qed.

End Maximal.

(** ** The style ranges *)

Section StylePartition.
Context {Font : Type} `{FontMetrics Font} `{NativeBackend Font}.

Lemma contiguous_snoc (start middle : Z) (rs : list (Range Z)) (r : Range Z) :
  contiguous start rs middle -> getStart r = middle -> middle <= getEnd r ->
  contiguous start (rs ++ [r]) (getEnd r).
Proof.
  revert start. induction rs as [|r0 rs IH]; intros start; simpl.
  - intros <- Hs He. auto.
  - intros (Hs0 & Hle & Hrest) Hs He. auto.
Qed.

Lemma FontAndColour_ne_false (a b : FontAndColour Font) :
  FontAndColour_ne a b = false -> a = b.
Proof.
  unfold FontAndColour_ne. destruct a as [fa ca], b as [fb cb]. simpl.
  intros Hne. apply orb_false_iff in Hne. destruct Hne as [Hf Hc].
  apply negb_false_iff in Hf, Hc. apply bool_decide_eq_true in Hf.
  apply Z.eqb_eq in Hc. congruence.
Qed.

Lemma scanStyles_ranges (text : AttributedString Font) (stringLength : Z) :
  forall (remaining : nat) (i rangeStart : Z) (lastFontAndColour : FontAndColour Font)
         (runAttributes : list (RunAttribute Font)),
    i + Z.of_nat remaining = stringLength ->
    (1 <= remaining)%nat ->
    0 <= i ->
    1 <= i \/ (2 <= remaining)%nat ->
    contiguous 0 (map ra_range runAttributes) rangeStart ->
    rangesSound text stringLength runAttributes ->
    (1 <= i -> rangeStart <= i - 1
               /\ forall k, rangeStart <= k < i -> effectiveStyle text k = lastFontAndColour) ->
    (i = 0 -> rangeStart = 0) ->
    contiguous 0
      (map ra_range
           (scanStyles remaining text stringLength i rangeStart lastFontAndColour runAttributes))
      stringLength
    /\ rangesSound text stringLength
         (scanStyles remaining text stringLength i rangeStart lastFontAndColour runAttributes).
Proof.
  induction remaining as [|remaining IH];
    intros i rangeStart lastFC acc Hlen Hrem Hi Hmore Hcont Hsound Hlast Hzero; [lia|].
  destruct remaining as [|remaining'].
  - assert (Hi1 : 1 <= i) by (destruct Hmore as [?|?]; lia).
    destruct (Hlast Hi1) as [Hrs Hstyle].
    simpl. replace (0 <? i) with true by (symmetry; apply Z.ltb_lt; lia).
    replace (i =? stringLength - 1) with true by (symmetry; apply Z.eqb_eq; lia).
    rewrite orb_true_r. simpl.
    replace (i <? stringLength - 1) with false by (symmetry; apply Z.ltb_ge; lia).
    rewrite Range_make_ordered by lia.
    replace (i + 1) with stringLength by lia.
    split.
    + rewrite map_app. simpl.
      apply (contiguous_snoc 0 rangeStart _ (mkRange rangeStart stringLength));
        simpl; [exact Hcont | reflexivity | lia].
    + apply Forall_app. split; [exact Hsound|]. constructor; [|constructor]. simpl.
      split; [lia|]. intros k Hk Hk'. apply Hstyle. lia.
  - cbn [scanStyles].
    destruct ((0 <? i)
              && (FontAndColour_ne (effectiveStyle text i) lastFC || (i =? stringLength - 1)))
      eqn:Hemit.
    + apply andb_true_iff in Hemit. destruct Hemit as [Hpos _]. apply Z.ltb_lt in Hpos.
      destruct (Hlast ltac:(lia)) as [Hrs Hstyle].
      replace (i <? stringLength - 1) with true by (symmetry; apply Z.ltb_lt; lia).
      rewrite Range_make_ordered by lia.
      apply IH; [lia|lia|lia|lia| | | |lia].
      * rewrite map_app. simpl.
        apply (contiguous_snoc 0 rangeStart _ (mkRange rangeStart i));
          simpl; [exact Hcont | reflexivity | lia].
      * apply Forall_app. split; [exact Hsound|]. constructor; [|constructor]. simpl.
        split; [lia|]. intros k Hk _. apply Hstyle. lia.
      * intros _. split; [lia|]. intros k Hk. f_equal. lia.
    + apply IH; [lia|lia|lia|lia|exact Hcont|exact Hsound| |].
      * intros _. destruct (Z.eq_dec i 0) as [->|Hne].
        -- rewrite Hzero by reflexivity. split; [lia|]. intros k Hk. f_equal. lia.
        -- destruct (Hlast ltac:(lia)) as [Hrs Hstyle].
           replace (0 <? i) with true in Hemit by (symmetry; apply Z.ltb_lt; lia).
           simpl in Hemit. apply orb_false_iff in Hemit. destruct Hemit as [Hsame _].
           apply FontAndColour_ne_false in Hsame.
           split; [lia|]. intros k Hk.
           destruct (Z.eq_dec k i) as [->|Hki]; [reflexivity|].
           rewrite Hsame. apply Hstyle. lia.
      * intros Hi0. lia.
Qed.

(** X2: the style ranges of a text of two characters or more follow one
    another from offset 0 to the length of the text, none is empty, and
    every character but the last one of the text lies in a range that
    carries the style in force at that character. *)
Theorem runAttributes_partition (text : AttributedString Font) :
  2 <= String_length (getText text) ->
  contiguous 0 (map ra_range (runAttributesOf text)) (String_length (getText text))
  /\ Forall (fun r => getStart (ra_range r) < getEnd (ra_range r)
                      /\ forall k, getStart (ra_range r) <= k < getEnd (ra_range r) ->
                                   k < String_length (getText text) - 1 ->
                                   effectiveStyle text k = ra_fontAndColour r)
            (runAttributesOf text).
Proof.
  intros Hlen. unfold runAttributesOf.
  apply (scanStyles_ranges text (String_length (getText text)));
    unfold String_length in *; try lia.
  - reflexivity.
  - constructor.
Qed.

End StylePartition.

Section TextCover.
Context {Font : Type} `{FontMetrics Font} `{NativeBackend Font}.

Lemma String_substring_split (s : string) :
  forall n m1 m2 : nat,
    (String.substring n m1 s ++ String.substring (n + m1) m2 s)%string
    = String.substring n (m1 + m2) s.
Proof.
  induction s as [|c s IH]; intros n m1 m2.
  - destruct n, m1, m2; reflexivity.
  - destruct n as [|n].
    + destruct m1 as [|m1]; simpl.
      * reflexivity.
      * rewrite <- (IH 0%nat m1 m2). reflexivity.
    + simpl. apply IH.
Qed.

Lemma String_substring_all (s : string) : String.substring 0 (String.length s) s = s.
Proof. induction s as [|c s IH]; simpl; [reflexivity | rewrite IH; reflexivity]. Qed.

Lemma String_substring_no_char (c : ascii) (s : string) :
  containsChar s c = false ->
  forall n m : nat, containsChar (String.substring n m s) c = false.
Proof.
  induction s as [|d s IH]; intros Hs n m.
  - destruct n, m; reflexivity.
  - simpl in Hs. apply orb_false_iff in Hs. destruct Hs as [Hd Hs].
    destruct n as [|n]; [destruct m as [|m]|]; simpl; [reflexivity| |apply IH; exact Hs].
    rewrite Hd. apply IH. exact Hs.
Qed.

Lemma substring_split (s : string) (a b c : Z) :
  0 <= a <= b -> b <= c ->
  (substring s a b ++ substring s b c)%string = substring s a c.
Proof.
  intros Hab Hbc. unfold substring.
  rewrite !Z.max_r by lia.
  destruct (b <=? a) eqn:Hba; [apply Z.leb_le in Hba; replace b with a by lia; reflexivity|].
  apply Z.leb_gt in Hba.
  replace (c <=? a) with false by (symmetry; apply Z.leb_gt; lia).
  destruct (c <=? b) eqn:Hcb.
  - apply Z.leb_le in Hcb. replace c with b by lia. apply string_app_nil_r.
  - apply Z.leb_gt in Hcb.
    replace (Z.to_nat b) with (Z.to_nat a + Z.to_nat (b - a))%nat by lia.
    rewrite String_substring_split. f_equal. lia.
Qed.

Lemma substring_no_char (ch : ascii) (s : string) (a b : Z) :
  containsChar s ch = false -> containsChar (substring s a b) ch = false.
Proof.
  intros Hs. unfold substring. destruct (_ <=? _); [reflexivity|].
  apply String_substring_no_char. exact Hs.
Qed.

Lemma substring_all (s : string) : substring s 0 (String_length s) = s.
Proof.
  unfold substring, String_length. simpl.
  destruct s as [|c s]; [reflexivity|].
  replace (Z.of_nat (String.length (String c s)) <=? 0) with false
    by (symmetry; apply Z.leb_gt; simpl; lia).
  rewrite Z.sub_0_r, Nat2Z.id. apply String_substring_all.
Qed.

Lemma applyAttribute_font (i : Z) (fc : FontAndColour Font) (attr : Attribute Font) :
  is_Some (fc_font fc) -> is_Some (fc_font (applyAttribute i fc attr)).
Proof.
  intros Hfc. unfold applyAttribute.
  destruct (attr_getFont attr), (attr_getColour attr),
    ((getStart (attr_range attr) <=? i) && (i <? getEnd (attr_range attr)));
    simpl; eauto.
Qed.

Lemma effectiveStyle_font (text : AttributedString Font) (i : Z) :
  is_Some (fc_font (effectiveStyle text i)).
Proof.
  unfold effectiveStyle.
  assert (Hgen : forall (attrs : list (Attribute Font)) (fc : FontAndColour Font),
                   is_Some (fc_font fc) ->
                   is_Some (fc_font (fold_left (applyAttribute i) attrs fc))).
  { induction attrs as [|attr attrs IH]; intros fc Hfc; simpl; [exact Hfc|].
    apply IH, applyAttribute_font, Hfc. }
  apply Hgen. simpl. eauto.
Qed.

Lemma scanStyles_fonts (text : AttributedString Font) (stringLength : Z) :
  forall (remaining : nat) (i rangeStart : Z) (lastFontAndColour : FontAndColour Font)
         (runAttributes : list (RunAttribute Font)),
    Forall (fun r => is_Some (fc_font (ra_fontAndColour r))) runAttributes ->
    (0 < i -> is_Some (fc_font lastFontAndColour)) ->
    Forall (fun r => is_Some (fc_font (ra_fontAndColour r)))
           (scanStyles remaining text stringLength i rangeStart lastFontAndColour
                       runAttributes).
Proof.
  induction remaining as [|remaining IH]; intros i rangeStart lastFC acc Hacc Hlast;
    simpl; [exact Hacc|].
  destruct ((0 <? i) && _) eqn:Hemit.
  - apply andb_true_iff in Hemit. destruct Hemit as [Hpos _]. apply Z.ltb_lt in Hpos.
    apply IH; [|intros _; apply effectiveStyle_font].
    apply Forall_app. split; [exact Hacc|]. constructor; [|constructor]. simpl. auto.
  - apply IH; [exact Hacc | intros _; apply effectiveStyle_font].
Qed.

Lemma appendRunAttributes_text (text : AttributedString Font) :
  containsChar (getText text) char_NUL = false ->
  forall (rs : list (RunAttribute Font)) (start stop : Z) (tokens : list (Token Font)),
    0 <= start ->
    contiguous start (map ra_range rs) stop ->
    Forall (fun r => is_Some (fc_font (ra_fontAndColour r))) rs ->
    tokensText (fold_left (appendRunAttribute text) rs tokens)
    = (tokensText tokens ++ substring (getText text) start stop)%string.
Proof.
  intros Hnul. induction rs as [|r rs IH]; intros start stop tokens Hstart Hcont Hfonts; simpl.
  - simpl in Hcont. subst stop. unfold substring.
    replace (start <=? Z.max 0 start) with true by (symmetry; apply Z.leb_le; lia).
    rewrite string_app_nil_r. reflexivity.
  - simpl in Hcont. destruct Hcont as (Hs & Hle & Hrest).
    inversion Hfonts as [|r' rs' [font Hfont] Hfonts']; subst.
    assert (Hstop : getEnd (ra_range r) <= stop).
    { clear -Hrest. revert Hrest. generalize (getEnd (ra_range r)).
      induction rs as [|r0 rs IHrs]; simpl; intros e.
      - intros <-. lia.
      - intros (<- & Hle & Hrest). specialize (IHrs _ Hrest). lia. }
    rewrite (IH (getEnd (ra_range r)) stop) by (try assumption; lia).
    unfold appendRunAttribute. rewrite Hfont.
    unfold appendText.
    rewrite appendText_loop_text with (bound := String.length
      (substring (getText text) (getStart (ra_range r)) (getEnd (ra_range r))));
      [|lia|apply substring_no_char; exact Hnul].
    simpl. rewrite string_app_assoc. f_equal.
    apply substring_split; lia.
Qed.

Lemma appendRunAttributes_shape (text : AttributedString Font) :
  forall (rs : list (RunAttribute Font)) (tokens : list (Token Font)),
    Forall tokenShape tokens ->
    Forall tokenShape (fold_left (appendRunAttribute text) rs tokens).
Proof.
  induction rs as [|r rs IH]; intros tokens Htokens; simpl; [exact Htokens|].
  apply IH. unfold appendRunAttribute.
  destruct (fc_font (ra_fontAndColour r)) as [font|]; [|exact Htokens].
  unfold appendText.
  apply appendText_loop_shape with (bound := String.length
    (substring (getText text) (getStart (ra_range r)) (getEnd (ra_range r))));
    [lia | exact Htokens | left; split; reflexivity].
Qed.

(** X3: the tokenizer on a whole text: every token is a line break, a stretch
    of white space or a word; for a text of two characters or more the
    texts of the tokens, put end to end, are the text; a text of one
    character or none gives no token. *)
Theorem addTextRuns_tokens (text : AttributedString Font) :
  Forall tokenShape (addTextRuns text [])
  /\ (2 <= String_length (getText text) ->
      containsChar (getText text) char_NUL = false ->
      tokensText (addTextRuns text []) = getText text)
  /\ (String_length (getText text) <= 1 -> addTextRuns text [] = []).
Proof.
  split; [|split].
  - apply appendRunAttributes_shape. constructor.
  - intros Hlen Hnul. unfold addTextRuns.
    assert (Hcont : contiguous 0 (map ra_range (runAttributesOf text))
                               (String_length (getText text))).
    { unfold runAttributesOf.
      apply (scanStyles_ranges text (String_length (getText text)));
        unfold String_length in *; try lia.
      - reflexivity.
      - constructor. }
    rewrite (appendRunAttributes_text text Hnul _ 0 (String_length (getText text)));
      [apply substring_all | lia | exact Hcont |].
    unfold runAttributesOf. apply scanStyles_fonts; [constructor | lia].
  - intros Hlen. unfold addTextRuns, runAttributesOf, String_length in *.
    destruct (String.length (getText text)) as [|[|n]]; [reflexivity|reflexivity|lia].
Qed.

End TextCover.

(** ** Placement by the line breaker *)

Section BreakerPlacement.
Context {Font : Type} `{FontMetrics Font} `{NativeBackend Font}.

(** X4: where the breaker puts the tokens: the first one at x = 0 on the
    line [totalLines]; a token that stays on the line of the one before
    it right behind that one; a token that starts a line at x = 0. *)
Theorem layoutRuns_positions (tokens : list (Token Font)) (totalLines maxWidth : Z) :
  (forall t, fst (layoutRuns tokens totalLines maxWidth) !! 0%nat = Some t ->
             rect_x (tok_area t) = 0 /\ tok_line t = totalLines)
  /\ (forall (i : nat) (t next : Token Font),
        fst (layoutRuns tokens totalLines maxWidth) !! i = Some t ->
        fst (layoutRuns tokens totalLines maxWidth) !! S i = Some next ->
        (tok_line next = tok_line t -> rect_x (tok_area next) = cursorAfter t)
        /\ (tok_line next <> tok_line t -> rect_x (tok_area next) = 0)).
Proof.
  split.
  - intros t Ht.
    destruct (fmap_lookup_eq _ _ _ _ _ (layoutRuns_placed tokens totalLines maxWidth) Ht)
      as (t' & Ht' & Hpt).
    destruct (placed_fields _ _ Hpt) as (Ha & Hl & _).
    destruct (layoutRuns_loop_spec maxWidth (length tokens)
                (mkBreakerState tokens totalLines 0 0 0 0) ltac:(simpl; lia))
      as (_ & _ & Hfirst & _).
    destruct (Hfirst t' Ht') as [Hx Hline]. simpl in Hx, Hline.
    rewrite Ha, Hl. auto.
  - intros i t next Ht Hn.
    pose proof (layoutRuns_placedAfter tokens totalLines maxWidth i t next Ht Hn) as Hp.
    unfold placedAfter in Hp.
    destruct (lineEndsAfter maxWidth t (cursorAfter t) next); destruct Hp as [Hline Hx].
    + split; [|intros _; exact Hx].
      intros Hsame. rewrite Hline in Hsame. apply int_add_1_neq in Hsame. contradiction.
    + split; [intros _; exact Hx | intros Hne; contradiction].
Qed.

Lemma getLineWidth_fold (lineNumber : Z) :
  forall (l : list (Token Font)) (start : Z),
    let result :=
      fold_left
        (fun maxW t =>
           if (tok_line t =? lineNumber) && negb (tok_isWhitespace t)
           then jmax maxW (Rectangle_getRight (tok_area t))
           else maxW) l start in
    start <= result
    /\ (forall t, In t l -> measuredOn lineNumber t ->
                  Rectangle_getRight (tok_area t) <= result)
    /\ (result = start
        \/ exists t, In t l /\ measuredOn lineNumber t
                     /\ result = Rectangle_getRight (tok_area t)).
Proof.
  induction l as [|t l IH]; intros start; simpl.
  - split; [lia|]. split; [intros t []|]. left. reflexivity.
  - set (next := if (tok_line t =? lineNumber) && negb (tok_isWhitespace t)
                 then jmax start (Rectangle_getRight (tok_area t)) else start).
    destruct (IH next) as (Hge & Hall & Hsome).
    assert (Hnext : start <= next
                    /\ (measuredOn lineNumber t -> Rectangle_getRight (tok_area t) <= next)
                    /\ (next = start
                        \/ (measuredOn lineNumber t
                            /\ next = Rectangle_getRight (tok_area t)))).
    { unfold next, measuredOn.
      destruct (tok_line t =? lineNumber) eqn:Hline; simpl.
      - apply Z.eqb_eq in Hline.
        destruct (tok_isWhitespace t); simpl.
        + split; [lia|]. split; [intros [_ Hws]; discriminate | left; reflexivity].
        + unfold jmax. simpl.
          destruct (start <? Rectangle_getRight (tok_area t)) eqn:Hlt;
            [apply Z.ltb_lt in Hlt | apply Z.ltb_ge in Hlt];
            (split; [lia|]); (split; [intros _; lia|]); auto.
      - apply Z.eqb_neq in Hline.
        split; [lia|]. split; [intros [Hl _]; contradiction | left; reflexivity]. }
    destruct Hnext as (Hstart & Hthis & Hwhich).
    split; [lia|]. split.
    + intros t' [<-|Hin] Hm; [specialize (Hthis Hm); lia | apply Hall; assumption].
    + destruct Hsome as [Heq|(t' & Hin & Hm & Heq)].
      * destruct Hwhich as [Hw|[Hm Hw]]; [left; congruence|].
        right. exists t. split; [left; reflexivity|]. split; [exact Hm | congruence].
      * right. exists t'. auto.
Qed.

(** X5: the measured width of a line: never negative, at least the right edge
    of every token of the line that is not white space, and either 0 or
    the right edge of one of them. *)
Theorem getLineWidth_is_max (tokens : list (Token Font)) (lineNumber : Z) :
  0 <= getLineWidth tokens lineNumber
  /\ (forall t, In t tokens -> measuredOn lineNumber t ->
                Rectangle_getRight (tok_area t) <= getLineWidth tokens lineNumber)
  /\ (getLineWidth tokens lineNumber = 0
      \/ exists t, In t tokens /\ measuredOn lineNumber t
                   /\ getLineWidth tokens lineNumber = Rectangle_getRight (tok_area t)).
Proof.
  unfold getLineWidth.
  destruct (getLineWidth_fold lineNumber (rev tokens) 0) as (Hge & Hall & Hsome).
  split; [exact Hge|]. split.
  - intros t Hin Hm. apply Hall; [apply in_rev in Hin; exact Hin | exact Hm].
  - destruct Hsome as [Heq|(t & Hin & Hm & Heq)]; [left; exact Heq|].
    right. exists t. split; [apply in_rev; exact Hin | auto].
Qed.

End BreakerPlacement.

Section Stacking.
Context {Font : Type} `{FontMetrics Font} `{NativeBackend Font}.

Lemma setLastLineHeight_block (L h : Z) :
  forall (n : nat) (toks : list (Token Font)) (b : nat),
    (b <= n <= length toks)%nat ->
    (forall (j : nat) t, (b <= j < n)%nat -> toks !! j = Some t -> tok_line t = L) ->
    ((0 < b)%nat -> exists p, toks !! (b - 1)%nat = Some p /\ tok_line p <> L) ->
    forall j : nat,
      setLastLineHeight toks L n h !! j
      = if bool_decide (b <= j < n)%nat
        then (fun t => Token_setLineHeight t h) <$> toks !! j
        else toks !! j.
Proof.
  induction n as [|n IH]; intros toks b Hb Hblock Hbound j.
  - simpl. rewrite bool_decide_eq_false_2 by lia. reflexivity.
  - simpl. destruct (toks !! n) as [tok|] eqn:Hn.
    2:{ apply lookup_ge_None in Hn. lia. }
    destruct (decide (b <= n)%nat) as [Hbn|Hbn].
    + rewrite (Hblock n tok ltac:(lia) Hn), Z.eqb_refl.
      rewrite (IH (<[n:=Token_setLineHeight tok h]> toks) b).
      * destruct (decide (j = n)) as [->|Hjn].
        -- rewrite bool_decide_eq_false_2 by lia.
           rewrite bool_decide_eq_true_2 by lia.
           rewrite list_lookup_insert_eq by (apply lookup_lt_Some in Hn; exact Hn).
           rewrite Hn. reflexivity.
        -- rewrite list_lookup_insert_ne by lia.
           destruct (decide (b <= j < n)%nat).
           ++ rewrite !bool_decide_eq_true_2 by lia. reflexivity.
           ++ rewrite !bool_decide_eq_false_2 by lia. reflexivity.
      * rewrite length_insert. lia.
      * intros j' t Hj' Ht. rewrite list_lookup_insert_ne in Ht by lia.
        apply (Hblock j' t); [lia | exact Ht].
      * intros Hpos. destruct (Hbound Hpos) as (p & Hp & Hline).
        exists p. rewrite list_lookup_insert_ne by lia. auto.
    + assert (b = S n) by lia. subst b.
      destruct (Hbound ltac:(lia)) as (p & Hp & Hline).
      replace (S n - 1)%nat with n in Hp by lia.
      assert (p = tok) by congruence. subst p.
      apply Z.eqb_neq in Hline. rewrite Hline.
      rewrite bool_decide_eq_false_2 by lia. reflexivity.
Qed.

Lemma jmax_int_spec (a b : Z) : a <= jmax a b /\ b <= jmax a b.
Proof. unfold jmax. simpl. destruct (a <? b) eqn:Hlt; [apply Z.ltb_lt in Hlt | apply Z.ltb_ge in Hlt]; lia. Qed.

Lemma close_block (toks : list (Token Font)) (L y h : Z) (b n : nat) :
  stackedUpTo toks b ->
  openBlock toks L y h b n ->
  stackedUpTo (setLastLineHeight toks L n h) n
  /\ (forall (j : nat) t, (b <= j < n)%nat ->
        setLastLineHeight toks L n h !! j = Some t ->
        tok_line t = L /\ rect_y (tok_area t) = y /\ tok_lineHeight t = h)
  /\ length (setLastLineHeight toks L n h) = length toks.
Proof.
  intros (Sfirst & Sheight & Spairs) (Hbn & Hh & Hblock & Hzero & Hbound).
  assert (Hlookup : forall j : nat,
             setLastLineHeight toks L n h !! j
             = if bool_decide (b <= j < n)%nat
               then (fun t => Token_setLineHeight t h) <$> toks !! j
               else toks !! j).
  { apply setLastLineHeight_block; [exact Hbn | |].
    - intros j t Hj Ht. apply (Hblock j t Hj Ht).
    - intros Hpos. destruct (Hbound Hpos) as (p & Hp & Hline & _). eauto. }
  assert (Hin : forall (j : nat) t, (b <= j < n)%nat ->
             setLastLineHeight toks L n h !! j = Some t ->
             exists t0, toks !! j = Some t0 /\ t = Token_setLineHeight t0 h).
  { intros j t Hj Ht. rewrite Hlookup, bool_decide_eq_true_2 in Ht by exact Hj.
    destruct (toks !! j) as [t0|]; [|discriminate]. exists t0.
    simpl in Ht. split; congruence. }
  assert (Hout : forall (j : nat) t, ~ (b <= j < n)%nat ->
             setLastLineHeight toks L n h !! j = Some t -> toks !! j = Some t).
  { intros j t Hj Ht. rewrite Hlookup, bool_decide_eq_false_2 in Ht by exact Hj.
    exact Ht. }
  assert (Hclosed : forall (j : nat) t, (b <= j < n)%nat ->
             setLastLineHeight toks L n h !! j = Some t ->
             tok_line t = L /\ rect_y (tok_area t) = y /\ tok_lineHeight t = h
             /\ rect_h (tok_area t) <= h).
  { intros j t Hj Ht. destruct (Hin j t Hj Ht) as (t0 & Ht0 & ->).
    destruct (Hblock j t0 Hj Ht0) as (Hl & Hy & Hht). simpl. auto. }
  split; [|split].
  - split; [|split].
    + intros t Hn Ht. destruct (decide (b <= 0 < n)%nat) as [Hj|Hj].
      * destruct (Hclosed 0%nat t Hj Ht) as (_ & Hy & _). rewrite Hy. apply Hzero. lia.
      * apply Sfirst; [lia | apply (Hout 0%nat t Hj Ht)].
    + intros j t Hjn Ht. destruct (decide (b <= j < n)%nat) as [Hj|Hj].
      * destruct (Hclosed j t Hj Ht) as (_ & _ & Hlh & Hle). lia.
      * apply (Sheight j t); [lia | apply (Hout j t Hj Ht)].
    + intros j t next Hjn Ht Hnext.
      destruct (decide (b <= j)%nat) as [Hbj|Hbj].
      * destruct (Hclosed j t ltac:(lia) Ht) as (Hl & Hy & Hlh & _).
        destruct (Hclosed (S j) next ltac:(lia) Hnext) as (Hl' & Hy' & Hlh' & _).
        split; [intros _; split; congruence | intros Hne; congruence].
      * pose proof (Hout j t ltac:(lia) Ht) as Ht0.
        destruct (decide (S j = b)) as [Hjb|Hjb].
        -- destruct (Hclosed (S j) next ltac:(lia) Hnext) as (Hl' & Hy' & _).
           destruct (Hbound ltac:(lia)) as (p & Hp & Hline & Hyp).
           replace (b - 1)%nat with j in Hp by lia.
           assert (p = t) by congruence. subst p.
           split; [intros Hsame; congruence | intros _; congruence].
        -- pose proof (Hout (S j) next ltac:(lia) Hnext) as Hn0.
           apply (Spairs j t next); [lia | exact Ht0 | exact Hn0].
  - intros j t Hj Ht. destruct (Hclosed j t Hj Ht) as (Hl & Hy & Hlh & _). auto.
  - apply (fmap_eq_length Token_placed). apply setLastLineHeight_placed.
Qed.

Lemma layoutRuns_loop_stacked (maxWidth : Z) :
  forall (remaining : nat) (s : @BreakerState Font) (b : nat),
    length (bs_tokens s) = (bs_i s + remaining)%nat ->
    stackedUpTo (bs_tokens s) b ->
    openBlock (bs_tokens s) (bs_totalLines s) (bs_y s) (bs_h s) b (bs_i s) ->
    exists b',
      stackedUpTo (bs_tokens (layoutRuns_loop remaining maxWidth s)) b'
      /\ openBlock (bs_tokens (layoutRuns_loop remaining maxWidth s))
                   (bs_totalLines (layoutRuns_loop remaining maxWidth s))
                   (bs_y (layoutRuns_loop remaining maxWidth s))
                   (bs_h (layoutRuns_loop remaining maxWidth s))
                   b' (length (bs_tokens (layoutRuns_loop remaining maxWidth s)))
      /\ Nat.min (bs_i (layoutRuns_loop remaining maxWidth s) + 1)
                 (length (bs_tokens (layoutRuns_loop remaining maxWidth s)))
         = length (bs_tokens (layoutRuns_loop remaining maxWidth s)).
Proof.
  induction remaining as [|remaining IH]; intros s b Hlen Hstacked Hopen.
  - simpl. exists b. replace (length (bs_tokens s)) with (bs_i s) by lia.
    split; [exact Hstacked|]. split; [exact Hopen | lia].
  - cbn [layoutRuns_loop].
    destruct (bs_tokens s !! bs_i s) as [t0|] eqn:Ht0.
    2:{ apply lookup_ge_None in Ht0. lia. }
    set (t := Token_setLine _ _).
    set (tokens := <[bs_i s := t]> (bs_tokens s)).
    set (h := jmax (bs_h s) (rect_h (tok_area t))).
    destruct Hstacked as (Sfirst & Sheight & Spairs).
    destruct Hopen as (Hbn & Hh & Hblock & Hzero & Hbound).
    assert (Hlen1 : length tokens = length (bs_tokens s)) by apply length_insert.
    assert (Hi : tokens !! bs_i s = Some t).
    { apply list_lookup_insert_eq. lia. }
    assert (Hother : forall j : nat, j <> bs_i s -> tokens !! j = bs_tokens s !! j).
    { intros j Hj. apply list_lookup_insert_ne. lia. }
    destruct (jmax_int_spec (bs_h s) (rect_h (tok_area t))) as [Hh1 Hh2]. fold h in Hh1, Hh2.
    assert (Hstacked1 : stackedUpTo tokens b).
    { split; [|split].
      - intros t' Hb Ht'. rewrite Hother in Ht' by lia. apply Sfirst; assumption.
      - intros j t' Hj Ht'. rewrite Hother in Ht' by lia. apply (Sheight j); assumption.
      - intros j t' n' Hj Ht' Hn'. rewrite Hother in Ht', Hn' by lia.
        apply (Spairs j); assumption. }
    assert (Hopen1 : openBlock tokens (bs_totalLines s) (bs_y s) h b (bs_i s + 1)).
    { split; [lia|]. split; [lia|]. split; [|split; [exact Hzero|]].
      - intros j t' Hj Ht'. destruct (decide (j = bs_i s)) as [->|Hne].
        + assert (t' = t) by congruence. subst t'. unfold t. simpl.
          split; [reflexivity|]. split; [reflexivity|]. exact Hh2.
        + rewrite Hother in Ht' by exact Hne.
          destruct (Hblock j t' ltac:(lia) Ht') as (Hl & Hy & Hle). split; [exact Hl|].
          split; [exact Hy | lia].
      - intros Hpos. destruct (Hbound Hpos) as (p & Hp & Hrest).
        exists p. rewrite Hother by lia. auto. }
    destruct (tokens !! (bs_i s + 1)%nat) as [nextTok|] eqn:Hnext.
    + destruct (lineEndsAfter maxWidth t (int_add (bs_x s) (rect_w (tok_area t))) nextTok).
      * destruct (close_block tokens (bs_totalLines s) (bs_y s) h b (bs_i s + 1)
                    Hstacked1 Hopen1) as (Hclosed & Hblock' & Hlen').
        apply (IH _ (bs_i s + 1)%nat); cbn [bs_tokens bs_totalLines bs_y bs_h bs_i].
        -- rewrite Hlen', Hlen1. lia.
        -- exact Hclosed.
        -- split; [rewrite Hlen', Hlen1; lia|]. split; [lia|].
           split; [intros j t' Hj; lia|]. split; [intros Hz; lia|].
           intros _.
           assert (Hlast : is_Some (setLastLineHeight tokens (bs_totalLines s)
                                      (bs_i s + 1) h !! bs_i s)).
           { apply lookup_lt_is_Some. rewrite Hlen', Hlen1. lia. }
           destruct Hlast as [p Hp].
           destruct (Hblock' (bs_i s) p ltac:(lia) Hp) as (Hl & Hy & Hlh).
           exists p. replace (bs_i s + 1 - 1)%nat with (bs_i s) by lia.
           split; [exact Hp|]. split; [|congruence].
           rewrite Hl. intros Heq. symmetry in Heq. apply int_add_1_neq in Heq. exact Heq.
      * apply (IH _ b); cbn [bs_tokens bs_totalLines bs_y bs_h bs_i];
          [rewrite Hlen1; lia | exact Hstacked1 | exact Hopen1].
    + apply lookup_ge_None in Hnext. cbn [bs_tokens bs_totalLines bs_y bs_h bs_i].
      exists b. replace (length tokens) with (bs_i s + 1)%nat by lia.
      split; [exact Hstacked1|]. split; [exact Hopen1 | lia].
Qed.

(** X6: how the breaker stacks the lines: the first token is at y = 0; the
    line height of a token is not negative and at least its own height; a
    token that stays on the line of the one before it has the same y and
    the same line height; a token that starts a line lies below the one
    before it by the line height of that one. *)
Theorem layoutRuns_stacked (tokens : list (Token Font)) (totalLines maxWidth : Z) :
  stackedUpTo (fst (layoutRuns tokens totalLines maxWidth))
              (length (fst (layoutRuns tokens totalLines maxWidth))).
Proof.
  unfold layoutRuns. cbn [fst].
  destruct (layoutRuns_loop_stacked maxWidth (length tokens)
              (mkBreakerState tokens totalLines 0 0 0 0) 0%nat) as (b & Hstacked & Hopen & Hmin).
  - reflexivity.
  - split; [|split]; intros; lia.
  - split; [simpl; lia|]. split; [simpl; lia|].
    split; [intros j t Hj; simpl in Hj; lia|].
    split; [reflexivity | intros Hpos; lia].
  - rewrite Hmin.
    destruct (close_block _ _ _ _ _ _ Hstacked Hopen) as (Hclosed & _ & Hlen).
    rewrite Hlen. exact Hclosed.
Qed.

End Stacking.

(** ** Bounds and normalisation *)

Section LineBounds.
Context {Font : Type} `{FontMetrics Font} `{NativeBackend Font}.

Lemma jmin_float_spec (a b : Q) :
  (jmin a b <= a)%Q /\ (jmin a b <= b)%Q /\ (jmin a b = a \/ jmin a b = b).
Proof.
  unfold jmin. simpl. destruct (Qltb b a) eqn:Hlt;
    [apply Qltb_lt in Hlt | apply Qltb_ge in Hlt]; repeat split; auto; lra.
Qed.

Lemma jmax_float_spec (a b : Q) :
  (a <= jmax a b)%Q /\ (b <= jmax a b)%Q /\ (jmax a b = a \/ jmax a b = b).
Proof.
  unfold jmax. simpl. destruct (Qltb a b) eqn:Hlt;
    [apply Qltb_lt in Hlt | apply Qltb_ge in Hlt]; repeat split; auto; lra.
Qed.

Lemma runBoundsX_fold :
  forall (l : list Glyph) (acc : float * float),
    let result :=
      fold_left
        (fun acc glyph =>
           (jmin (fst acc) (pt_x (anchor glyph)),
            jmax (snd acc) (pt_x (anchor glyph) + glyph_width glyph)%Q)) l acc in
    (fst result <= fst acc)%Q /\ (snd acc <= snd result)%Q
    /\ forall g, In g l ->
         (fst result <= pt_x (anchor g))%Q
         /\ (pt_x (anchor g) + glyph_width g <= snd result)%Q.
Proof.
  induction l as [|g l IH]; intros acc; simpl.
  - split; [lra|]. split; [lra|]. intros g [].
  - destruct (IH (jmin (fst acc) (pt_x (anchor g)),
                  jmax (snd acc) (pt_x (anchor g) + glyph_width g)%Q))
      as (Hlo & Hhi & Hall).
    simpl in Hlo, Hhi.
    destruct (jmin_float_spec (fst acc) (pt_x (anchor g))) as (Hm1 & Hm2 & _).
    destruct (jmax_float_spec (snd acc) (pt_x (anchor g) + glyph_width g)%Q)
      as (Hx1 & Hx2 & _).
    split; [lra|]. split; [lra|].
    intros g' [<-|Hin]; [split; lra | apply Hall; exact Hin].
Qed.

Lemma runBoundsX_spec (first : Glyph) (after : list Glyph) :
  (fst (runBoundsX first after) <= pt_x (anchor first))%Q
  /\ (pt_x (anchor first) <= snd (runBoundsX first after))%Q
  /\ forall g, In g after ->
       (fst (runBoundsX first after) <= pt_x (anchor g))%Q
       /\ (pt_x (anchor g) + glyph_width g <= snd (runBoundsX first after))%Q.
Proof.
  unfold runBoundsX.
  destruct (runBoundsX_fold (rev after) (pt_x (anchor first), pt_x (anchor first)))
    as (Hlo & Hhi & Hall).
  simpl in Hlo, Hhi. split; [exact Hlo|]. split; [exact Hhi|].
  intros g Hin. apply Hall. apply in_rev in Hin. exact Hin.
Qed.

Lemma Range_make_covers (lo hi : float) :
  covers (Range_make lo hi) lo hi /\ (getStart (Range_make lo hi) <= getEnd (Range_make lo hi))%Q.
Proof.
  unfold covers, Range_make. simpl.
  destruct (jmax_float_spec lo hi) as (H1 & H2 & _). repeat split; lra.
Qed.

Lemma getUnionWith_covers (r other : Range float) :
  (getStart (getUnionWith r other) <= getStart r)%Q
  /\ (getStart (getUnionWith r other) <= getStart other)%Q
  /\ (getEnd r <= getEnd (getUnionWith r other))%Q
  /\ (getEnd other <= getEnd (getUnionWith r other))%Q
  /\ (getStart (getUnionWith r other) <= getEnd (getUnionWith r other))%Q.
Proof.
  unfold getUnionWith, Range_make. simpl.
  destruct (jmin_float_spec (getStart r) (getStart other)) as (H1 & H2 & _).
  destruct (jmax_float_spec (getEnd r) (getEnd other)) as (H3 & H4 & _).
  destruct (jmax_float_spec (jmin (getStart r) (getStart other))
                            (jmax (getEnd r) (getEnd other))) as (H5 & H6 & _).
  repeat split; lra.
Qed.

(** The fold over the runs: once a run with glyphs has been met, the
    range covers the bounds of every such run met. *)
Lemma addRunBounds_fold :
  forall (runs : list (Run Font)) (acc : Range float * bool),
    (snd acc = false -> (getStart (fst acc) <= getEnd (fst acc))%Q) ->
    let result := fold_left addRunBounds runs acc in
    (snd acc = false ->
     snd result = false /\ covers (fst result) (getStart (fst acc)) (getEnd (fst acc)))
    /\ (snd result = false -> (getStart (fst result) <= getEnd (fst result))%Q)
    /\ (snd result = true -> result = acc /\ Forall (fun run => run_glyphs run = []) runs)
    /\ forall run first after,
         In run runs -> run_glyphs run = first :: after ->
         snd result = false
         /\ covers (fst result) (fst (runBoundsX first after)) (snd (runBoundsX first after)).
Proof.
  induction runs as [|run runs IH]; intros acc Hacc; simpl.
  - split; [intros Hf; split; [exact Hf|]; unfold covers; split; lra|].
    split; [exact Hacc|]. split; [intros _; split; [reflexivity|constructor]|].
    intros run first after [].
  - assert (Hstep : (snd (addRunBounds acc run) = false ->
                     (getStart (fst (addRunBounds acc run))
                      <= getEnd (fst (addRunBounds acc run)))%Q)
                    /\ (snd acc = false ->
                        snd (addRunBounds acc run) = false
                        /\ covers (fst (addRunBounds acc run))
                                  (getStart (fst acc)) (getEnd (fst acc)))
                    /\ (run_glyphs run = [] -> addRunBounds acc run = acc)
                    /\ (forall first after, run_glyphs run = first :: after ->
                          snd (addRunBounds acc run) = false
                          /\ covers (fst (addRunBounds acc run))
                                    (fst (runBoundsX first after))
                                    (snd (runBoundsX first after)))).
    { unfold addRunBounds. destruct (run_glyphs run) as [|first after] eqn:Hg.
      - split; [exact Hacc|]. split; [intros Hf; split; [exact Hf|]; unfold covers; split; lra|].
        split; [reflexivity|]. intros first after Hfa. discriminate.
      - destruct (runBoundsX first after) as [minX maxX] eqn:Hb.
        destruct (Range_make_covers minX maxX) as [Hc Ho].
        destruct (getUnionWith_covers (fst acc) (Range_make minX maxX))
          as (U1 & U2 & U3 & U4 & U5).
        unfold covers in *.
        destruct (snd acc) eqn:Hfirst; cbn [fst snd].
        + split; [intros _; exact Ho|]. split; [intros Hf; discriminate|].
          split; [intros Hnil; discriminate|].
          intros f a [= <- <-]. rewrite Hb. cbn [fst snd]. split; [reflexivity | exact Hc].
        + split; [intros _; exact U5|].
          split; [intros _; split; [reflexivity|split; [exact U1 | exact U3]]|].
          split; [intros Hnil; discriminate|].
          intros f a [= <- <-]. rewrite Hb. cbn [fst snd]. split; [reflexivity|].
          destruct Hc as [Hc1 Hc2]. split; lra. }
    destruct Hstep as (Hord & Hkeep & Hskip & Hrun).
    destruct (IH (addRunBounds acc run) Hord) as (IHkeep & IHord & IHfirst & IHruns).
    split; [|split; [exact IHord|split]].
    + intros Hf. destruct (Hkeep Hf) as [Hf' Hc]. destruct (IHkeep Hf') as [Hf'' Hc'].
      split; [exact Hf''|]. unfold covers in *. split; lra.
    + intros Ht.
      destruct (run_glyphs run) as [|first after] eqn:Hg.
      * destruct (IHfirst Ht) as [Heq Hall]. rewrite Heq, (Hskip eq_refl).
        split; [reflexivity|]. constructor; [exact Hg | exact Hall].
      * destruct (Hrun first after eq_refl) as [Hf _].
        destruct (IHkeep Hf) as [Hf' _]. congruence.
    + intros run' first after [<-|Hin] Hg.
      * destruct (Hrun first after Hg) as [Hf Hc].
        destruct (IHkeep Hf) as [Hf' Hc']. split; [exact Hf'|].
        unfold covers in *. split; lra.
      * apply (IHruns run' first after Hin Hg).
Qed.

Lemma addRunBounds_no_glyphs (runs : list (Run Font)) (acc : Range float * bool) :
  Forall (fun run => run_glyphs run = []) runs -> fold_left addRunBounds runs acc = acc.
Proof.
  revert acc. induction runs as [|run runs IH]; intros acc Hall; simpl; [reflexivity|].
  inversion Hall as [|r rs Hrun Hrest]; subst.
  rewrite IH by exact Hrest. unfold addRunBounds. rewrite Hrun. reflexivity.
Qed.

(** X7: what [getLineBoundsX] holds: its start is at or left of the left edge
    of every glyph of the line; its end is at or right of the right edge
    of every glyph but the first of its run, and of the left edge of
    that first one; a line without any glyph gets the empty range at the
    x of its origin. *)
Theorem getLineBoundsX_contains (line : Line Font) :
  (getStart (getLineBoundsX line) <= getEnd (getLineBoundsX line))%Q
  /\ (forall run first after,
        In run (line_runs line) -> run_glyphs run = first :: after ->
        (getStart (getLineBoundsX line) <= glyphLeft line first)%Q
        /\ (glyphLeft line first <= getEnd (getLineBoundsX line))%Q
        /\ forall g, In g after ->
             (getStart (getLineBoundsX line) <= glyphLeft line g)%Q
             /\ (glyphRight line g <= getEnd (getLineBoundsX line))%Q)
  /\ (Forall (fun run => run_glyphs run = []) (line_runs line) ->
      getLineBoundsX line
      = mkRange (0 + pt_x (lineOrigin line))%Q (0 + pt_x (lineOrigin line))%Q).
Proof.
  unfold getLineBoundsX.
  destruct (addRunBounds_fold (rev (line_runs line)) (Range_empty, true)
              ltac:(simpl; discriminate)) as (_ & _ & _ & Hruns).
  destruct (fold_left addRunBounds (rev (line_runs line)) (Range_empty, true))
    as [range isFirst] eqn:Hfold.
  cbn [fst snd] in Hruns.
  destruct (Range_make_covers (getStart range + pt_x (lineOrigin line))%Q
                              (getEnd range + pt_x (lineOrigin line))%Q) as [Hc Ho].
  unfold Range_shift. cbn [num_add Numeric_float].
  split; [exact Ho|]. split.
  - intros run first after Hin Hg.
    assert (Hin' : In run (rev (line_runs line))) by (apply in_rev in Hin; exact Hin).
    destruct (Hruns run first after Hin' Hg) as [_ [Hlo Hhi]].
    destruct (runBoundsX_spec first after) as (Hf1 & Hf2 & Hafter).
    destruct Hc as [Hc1 Hc2]. unfold glyphLeft, glyphRight.
    split; [lra|]. split; [lra|].
    intros g Hg'. destruct (Hafter g Hg') as [Ha1 Ha2]. split; lra.
  - intros Hall.
    rewrite addRunBounds_no_glyphs in Hfold by (apply List.Forall_rev; exact Hall).
    injection Hfold as <- <-. unfold Range_make, Range_empty, jmax. simpl.
    destruct (Qltb _ _); reflexivity.
Qed.

End LineBounds.

Section Normalise.
Context {Font : Type} `{FontMetrics Font} `{NativeBackend Font}.






End Normalise.

(** ** The run builder *)

Section RunBuilder.
Context {Font : Type} `{FontMetrics Font} `{NativeBackend Font}.

Lemma int_add_exact (a b : Z) : - 2 ^ 31 <= a + b < 2 ^ 31 -> int_add a b = a + b.
Proof.
  intros Hrange. unfold int_add, int_wrap.
  rewrite Z.mod_small by (change (2 ^ 32) with (2 ^ 31 + 2 ^ 31); lia). lia.
Qed.

Lemma addGlyphs_spec (t : Token Font) (tokenPos : Point) (xOffsets : list float) :
  forall (codes : list Z) (j : nat) (run : Run Font) (line : Line Font) (need : bool)
         (charPos : Z),
  exists added : list Glyph,
    addGlyphs t tokenPos codes xOffsets j (run, line, need, charPos)
    = (mkRun (run_font run) (run_colour run) (run_glyphs run ++ added)
             (run_stringRange run),
       match codes with
       | [] => line
       | _ :: _ =>
           if need
           then Line_setOrigin line (Point_translated tokenPos 0 (getAscent (tok_font t)))
           else line
       end,
       match codes with [] => need | _ :: _ => false end,
       fold_left (fun c _ => int_add c 1) codes charPos)
    /\ map glyphCode added = codes.
Proof.
  induction codes as [|code codes IH]; intros j run line need charPos.
  - exists []. simpl. rewrite app_nil_r. destruct run. split; reflexivity.
  - cbn [addGlyphs].
    destruct (IH (S j)
                (Run_addGlyph run
                   (mkGlyph code (mkPoint (pt_x tokenPos + nth j xOffsets 0%Q)%Q 0%Q)
                            (nth (S j) xOffsets 0%Q - nth j xOffsets 0%Q)%Q))
                (if need
                 then Line_setOrigin line
                        (Point_translated tokenPos 0 (getAscent (tok_font t)))
                 else line)
                false (int_add charPos 1)) as (added & Heq & Hcodes).
    exists (mkGlyph code (mkPoint (pt_x tokenPos + nth j xOffsets 0%Q)%Q 0%Q)
                    (nth (S j) xOffsets 0%Q - nth j xOffsets 0%Q)%Q :: added).
    rewrite Heq. simpl.
    rewrite <- app_assoc. simpl. split; [|rewrite Hcodes; reflexivity].
    destruct codes; reflexivity.
Qed.

Lemma count_exact (codes : list Z) (charPos : Z) :
  0 <= charPos -> charPos + Z.of_nat (length codes) < 2 ^ 31 ->
  fold_left (fun c _ => int_add c 1) codes charPos = charPos + Z.of_nat (length codes).
Proof.
  revert charPos. induction codes as [|code codes IH]; intros charPos Hlo Hhi; simpl.
  - lia.
  - simpl length in Hhi. rewrite int_add_exact by lia. rewrite IH by lia. lia.
Qed.

(** One pass of the loop over the tokens, with the glyph loop worked out. *)
Lemma buildStep_shape (t : Token Font) (nextToken : option (Token Font))
    (st : BuilderState) :
  exists (added : list Glyph) (line1 : Line Font) (need1 : bool) (run1 : Run Font),
    map glyphCode added = shapedCodes t
    /\ line_runs line1 = line_runs (default Line_new (currentLine st))
    /\ line_stringRange line1 = line_stringRange (default Line_new (currentLine st))
    /\ (ascent line1 = ascent (default Line_new (currentLine st))
        /\ descent line1 = descent (default Line_new (currentLine st)))
    /\ run_glyphs run1 = run_glyphs (default Run_new (currentRun st)) ++ added
    /\ buildStep t nextToken st
       = match nextToken with
         | None =>
             mkBuilderState (charPositionAfter t (charPosition st))
               (lineStartPosition st) (runStartPosition st) None None need1
               (layoutLines st
                ++ [Line_setStringRange
                      (addRun line1 run1 t (runStartPosition st)
                              (charPositionAfter t (charPosition st)))
                      (Range_make (lineStartPosition st)
                                  (charPositionAfter t (charPosition st)))])
         | Some next =>
             if negb (bool_decide (tok_font t = tok_font next))
                || negb (tok_colour t =? tok_colour next)
             then
               if negb (tok_line t =? tok_line next)
               then
                 mkBuilderState (charPositionAfter t (charPosition st))
                   (charPositionAfter t (charPosition st))
                   (charPositionAfter t (charPosition st)) None None true
                   (layoutLines st
                    ++ [Line_setStringRange
                          (addRun (addRun line1 run1 t (runStartPosition st)
                                          (charPositionAfter t (charPosition st)))
                                  Run_new t
                                  (charPositionAfter t (charPosition st))
                                  (charPositionAfter t (charPosition st)))
                          (Range_make (lineStartPosition st)
                                      (charPositionAfter t (charPosition st)))])
               else
                 mkBuilderState (charPositionAfter t (charPosition st))
                   (lineStartPosition st) (charPositionAfter t (charPosition st))
                   (Some (addRun line1 run1 t (runStartPosition st)
                                 (charPositionAfter t (charPosition st))))
                   None need1 (layoutLines st)
             else
               if negb (tok_line t =? tok_line next)
               then
                 mkBuilderState (charPositionAfter t (charPosition st))
                   (charPositionAfter t (charPosition st))
                   (charPositionAfter t (charPosition st)) None None true
                   (layoutLines st
                    ++ [Line_setStringRange
                          (addRun line1 run1 t (runStartPosition st)
                                  (charPositionAfter t (charPosition st)))
                          (Range_make (lineStartPosition st)
                                      (charPositionAfter t (charPosition st)))])
               else
                 mkBuilderState (charPositionAfter t (charPosition st))
                   (lineStartPosition st) (runStartPosition st)
                   (Some line1) (Some run1) need1 (layoutLines st)
         end.
Proof.
  unfold buildStep, charPositionAfter, shapedCodes.
  destruct (getGlyphPositions (tok_font t) (trimEnd (tok_text t))) as [codes xOffsets].
  destruct (addGlyphs_spec t (Rectangle_getPosition (tok_area t)) xOffsets codes 0
              (default Run_new (currentRun st)) (default Line_new (currentLine st))
              (needToSetLineOrigin st) (charPosition st)) as (added & Heq & Hcodes).
  rewrite Heq. simpl fst.
  eexists added, _, _, _. split; [exact Hcodes|].
  split; [|split; [|split; [|split; [|
    destruct nextToken as [next|]; [|reflexivity];
    destruct (negb (bool_decide (tok_font t = tok_font next))
              || negb (tok_colour t =? tok_colour next));
    destruct (negb (tok_line t =? tok_line next)); reflexivity]]]].
  - destruct codes; [reflexivity|]. destruct (needToSetLineOrigin st); reflexivity.
  - destruct codes; [reflexivity|]. destruct (needToSetLineOrigin st); reflexivity.
  - destruct codes; [split; reflexivity|].
    destruct (needToSetLineOrigin st); split; reflexivity.
  - reflexivity.
Qed.

Lemma buildStep_lines (t : Token Font) (nextToken : option (Token Font))
    (st : BuilderState) :
  length (layoutLines (buildStep t nextToken st))
  = (length (layoutLines st)
     + match nextToken with
       | None => 1
       | Some next => if (tok_line t =? tok_line next)%Z then 0 else 1
       end)%nat.
Proof.
  destruct (buildStep_shape t nextToken st)
    as (added & line1 & need1 & run1 & _ & _ & _ & _ & _ & ->).
  destruct nextToken as [next|].
  - destruct (negb (bool_decide (tok_font t = tok_font next))
              || negb (tok_colour t =? tok_colour next));
      destruct (tok_line t =? tok_line next); simpl; rewrite ?length_app; simpl; lia.
  - simpl. rewrite length_app. simpl. lia.
Qed.

(** X9: one line for every stretch of tokens with the same line number: the
    loop adds one line more than there are changes of line number, and
    none for no token. *)
Theorem buildLines_line_count (tokens : list (Token Font)) (st : BuilderState) :
  length (layoutLines (buildLines tokens st))
  = (length (layoutLines st)
     + match tokens with [] => 0 | _ :: _ => S (lineChanges tokens) end)%nat.
Proof.
  revert st. induction tokens as [|t rest IH]; intros st; simpl; [lia|].
  rewrite IH, buildStep_lines.
  destruct rest as [|next rest']; simpl; [lia|].
  destruct (tok_line t =? tok_line next); lia.
Qed.

Lemma lineCodes_runs (a b : Line Font) : line_runs a = line_runs b -> lineCodes a = lineCodes b.
Proof. unfold lineCodes. intros ->. reflexivity. Qed.

Lemma lineCodes_addRun (l : Line Font) (r : Run Font) (t : Token Font) (s e : Z) :
  lineCodes (addRun l r t s e) = lineCodes l ++ map glyphCode (run_glyphs r).
Proof.
  unfold lineCodes, addRun. simpl. rewrite map_app, concat_app. simpl.
  rewrite app_nil_r. reflexivity.
Qed.

Lemma lineCodes_setStringRange (l : Line Font) (r : Range Z) :
  lineCodes (Line_setStringRange l r) = lineCodes l.
Proof. reflexivity. Qed.

Lemma linesCodes_snoc (ls : list (Line Font)) (l : Line Font) :
  linesCodes (ls ++ [l]) = linesCodes ls ++ lineCodes l.
Proof.
  unfold linesCodes. rewrite map_app, concat_app. simpl. rewrite app_nil_r. reflexivity.
Qed.

Lemma buildStep_codes (t : Token Font) (nextToken : option (Token Font))
    (st : BuilderState) :
  linesCodes (layoutLines (buildStep t nextToken st)) ++ pendingCodes (buildStep t nextToken st)
  = linesCodes (layoutLines st) ++ pendingCodes st ++ shapedCodes t.
Proof.
  destruct (buildStep_shape t nextToken st)
    as (added & line1 & need1 & run1 & Hadded & Hruns & _ & _ & Hglyphs & ->).
  unfold pendingCodes at 2. rewrite <- Hadded, <- (lineCodes_runs _ _ Hruns).
  assert (Hrun1 : map glyphCode (run_glyphs run1)
                  = map glyphCode (run_glyphs (default Run_new (currentRun st)))
                    ++ map glyphCode added)
    by (rewrite Hglyphs; apply map_app).
  destruct nextToken as [next|].
  - destruct (negb (bool_decide (tok_font t = tok_font next))
              || negb (tok_colour t =? tok_colour next));
      destruct (negb (tok_line t =? tok_line next)); unfold pendingCodes; simpl;
      rewrite ?linesCodes_snoc, ?lineCodes_setStringRange, ?lineCodes_addRun; simpl;
      rewrite ?Hrun1, ?app_nil_r, <- ?app_assoc; reflexivity.
  - unfold pendingCodes. simpl.
    rewrite linesCodes_snoc, lineCodes_setStringRange, lineCodes_addRun. simpl.
    rewrite Hrun1, app_nil_r, <- !app_assoc. reflexivity.
Qed.

Lemma buildLines_codes (tokens : list (Token Font)) :
  forall st : BuilderState,
    linesCodes (layoutLines (buildLines tokens st)) ++ pendingCodes (buildLines tokens st)
    = linesCodes (layoutLines st) ++ pendingCodes st ++ concat (map shapedCodes tokens).
Proof.
  induction tokens as [|t rest IH]; intros st; simpl.
  - rewrite app_nil_r. reflexivity.
  - rewrite IH, app_assoc, buildStep_codes, <- !app_assoc. reflexivity.
Qed.

Lemma buildLines_flushed (tokens : list (Token Font)) :
  forall st : BuilderState,
    tokens <> [] ->
    currentLine (buildLines tokens st) = None /\ currentRun (buildLines tokens st) = None.
Proof.
  induction tokens as [|t rest IH]; intros st Hne; [contradiction|]. simpl.
  destruct rest as [|next rest'].
  - simpl. destruct (buildStep_shape t None st)
      as (added & line1 & need1 & run1 & _ & _ & _ & _ & _ & ->).
    split; reflexivity.
  - apply IH. discriminate.
Qed.

End RunBuilder.

Section RunRanges.
Context {Font : Type} `{FontMetrics Font} `{NativeBackend Font}.

Lemma charPositionAfter_exact (t : Token Font) (charPos : Z) :
  0 <= charPos -> charPos + tokenAdvance t < 2 ^ 31 ->
  charPositionAfter t charPos = charPos + tokenAdvance t.
Proof.
  intros Hlo Hhi. unfold charPositionAfter, tokenAdvance in *.
  assert (Hflag : 0 <= (if tok_isWhitespace t || tok_isNewLine t then 1 else 0) <= 1)
    by (destruct (tok_isWhitespace t || tok_isNewLine t); lia).
  rewrite count_exact by lia.
  destruct (tok_isWhitespace t || tok_isNewLine t); [rewrite int_add_exact by lia|]; lia.
Qed.

Lemma tokenAdvance_nonneg (t : Token Font) : 0 <= tokenAdvance t.
Proof. unfold tokenAdvance. destruct (tok_isWhitespace t || tok_isNewLine t); lia. Qed.

Lemma totalAdvance_nonneg (tokens : list (Token Font)) : 0 <= totalAdvance tokens.
Proof.
  induction tokens as [|t rest IH]; simpl; [lia|].
  pose proof (tokenAdvance_nonneg t). lia.
Qed.

Lemma addRun_runs (l : Line Font) (r : Run Font) (t : Token Font) (s e : Z) :
  map run_stringRange (line_runs (addRun l r t s e))
  = map run_stringRange (line_runs l) ++ [Range_make s e].
Proof. unfold addRun. simpl. rewrite map_app. reflexivity. Qed.

Lemma closeLine_fills (line : Line Font) (lineStart runStart charPos : Z) :
  lineStart <= runStart <= charPos ->
  contiguous lineStart (map run_stringRange (line_runs line)) runStart ->
  forall (run : Run Font) (t : Token Font),
    runsFillLine (Line_setStringRange (addRun line run t runStart charPos)
                                      (Range_make lineStart charPos))
    /\ runsFillLine
         (Line_setStringRange
            (addRun (addRun line run t runStart charPos) Run_new t charPos charPos)
            (Range_make lineStart charPos)).
Proof.
  intros Hle Hcont run t. unfold runsFillLine, Line_setStringRange, addRun.
  rewrite !Range_make_ordered by lia. simpl.
  assert (Hone : contiguous lineStart
                   (map run_stringRange (line_runs line) ++ [mkRange runStart charPos])
                   charPos).
  { apply (contiguous_snoc lineStart runStart _ (mkRange runStart charPos));
      simpl; [exact Hcont | reflexivity | lia]. }
  split.
  - rewrite map_app. exact Hone.
  - rewrite !map_app, <- app_assoc. simpl.
    change [mkRange runStart charPos; mkRange charPos charPos]
      with ([mkRange runStart charPos] ++ [mkRange charPos charPos]).
    rewrite app_assoc.
    apply (contiguous_snoc lineStart charPos _ (mkRange charPos charPos));
      simpl; [exact Hone | reflexivity | lia].
Qed.

Lemma buildLines_ranges (tokens : list (Token Font)) :
  forall st : BuilderState,
    tokens <> [] ->
    rangesInvariant st ->
    charPosition st + totalAdvance tokens < 2 ^ 31 ->
    contiguous 0 (map line_stringRange (layoutLines (buildLines tokens st)))
               (charPosition st + totalAdvance tokens)
    /\ Forall runsFillLine (layoutLines (buildLines tokens st)).
Proof.
  induction tokens as [|t rest IH]; intros st Hne Hinv Hbound; [contradiction|].
  destruct Hinv as (Hstart & Hrun & Hlines & Hfill & Hpending).
  simpl in Hbound. pose proof (tokenAdvance_nonneg t) as Hadv.
  pose proof (totalAdvance_nonneg rest) as Hrest.
  assert (Hpos : charPositionAfter t (charPosition st) = charPosition st + tokenAdvance t)
    by (apply charPositionAfter_exact; lia).
  cbn [buildLines].
  destruct (buildStep_shape t (head rest) st)
    as (added & line1 & need1 & run1 & _ & Hruns & _ & _ & _ & Hstep).
  rewrite <- Hruns in Hpending.
  assert (Hle : lineStartPosition st <= runStartPosition st
                <= charPositionAfter t (charPosition st)) by lia.
  destruct (closeLine_fills line1 (lineStartPosition st) (runStartPosition st)
              (charPositionAfter t (charPosition st)) Hle Hpending run1 t)
    as [Hclose1 Hclose2].
  assert (Hclosed : forall l : Line Font,
             contiguous 0
               (map line_stringRange
                    (layoutLines st
                     ++ [Line_setStringRange l
                           (Range_make (lineStartPosition st)
                                       (charPositionAfter t (charPosition st)))]))
               (charPositionAfter t (charPosition st))).
  { intros l. rewrite map_app. simpl. rewrite Range_make_ordered by lia.
    apply (contiguous_snoc 0 (lineStartPosition st) _
             (mkRange (lineStartPosition st) (charPositionAfter t (charPosition st))));
      simpl; [exact Hlines | reflexivity | lia]. }
  destruct rest as [|next rest'].
  - (* the last token *)
    cbn [buildLines head] in Hstep |- *. rewrite Hstep. simpl.
    replace (charPosition st + (tokenAdvance t + 0)) with
      (charPositionAfter t (charPosition st)) by lia.
    split; [apply Hclosed|]. apply Forall_app. split; [exact Hfill|].
    constructor; [exact Hclose1 | constructor].
  - cbn [head] in Hstep |- *.
    assert (Hnext : rangesInvariant (buildStep t (Some next) st)
                    /\ charPosition (buildStep t (Some next) st)
                       = charPositionAfter t (charPosition st)).
    { rewrite Hstep. unfold rangesInvariant.
      destruct (negb (bool_decide (tok_font t = tok_font next))
                || negb (tok_colour t =? tok_colour next));
        destruct (negb (tok_line t =? tok_line next));
        cbn [charPosition lineStartPosition runStartPosition layoutLines currentLine
             from_option id];
        (split; [|reflexivity]).
      - repeat split; try lia; [apply Hclosed|].
        apply Forall_app. split; [exact Hfill|]. constructor; [exact Hclose2 | constructor].
      - repeat split; try lia; [exact Hlines | exact Hfill |].
        rewrite addRun_runs, Range_make_ordered by lia.
        apply (contiguous_snoc _ (runStartPosition st) _
                 (mkRange (runStartPosition st) (charPositionAfter t (charPosition st))));
          simpl; [exact Hpending | reflexivity | lia].
      - repeat split; try lia; [apply Hclosed|].
        apply Forall_app. split; [exact Hfill|]. constructor; [exact Hclose1 | constructor].
      - repeat split; try lia; [exact Hlines | exact Hfill | exact Hpending]. }
    destruct Hnext as [Hinv' Hpos'].
    destruct (IH (buildStep t (Some next) st) ltac:(discriminate) Hinv') as [Hc Hf].
    + rewrite Hpos', Hpos. simpl in Hbound |- *. lia.
    + split; [|exact Hf].
      rewrite Hpos', Hpos in Hc.
      replace (charPosition st + totalAdvance (t :: next :: rest'))
        with (charPosition st + tokenAdvance t + totalAdvance (next :: rest'));
        [exact Hc | simpl; lia].
Qed.

End RunRanges.

Section WholeLayout.
Context {Font : Type} `{FontMetrics Font} `{NativeBackend Font}.

Lemma justifyLines_frame (flags totalW : Z) (tokens : list (Token Font))
    (ls : list (Line Font)) :
  Line_withoutX <$> justifyLines flags totalW tokens ls = Line_withoutX <$> ls.
Proof.
  unfold justifyLines. destruct (negb _); [|reflexivity].
  rewrite fmap_imap. rewrite <- imap_const. apply imap_ext.
  intros i l _. reflexivity.
Qed.

Lemma recalculateWidth_frame (text : AttributedString Font) (this : TextLayout Font) :
  Line_withoutX <$> lines (recalculateWidth text this) = Line_withoutX <$> lines this.
Proof.
  unfold recalculateWidth. destruct (lines this) as [|first others] eqn:Hl.
  - rewrite Hl. reflexivity.
  - destruct (ReadingDirection_eqb _ _); [rewrite Hl; reflexivity|].
    cbn [lines]. rewrite <- list_fmap_compose. apply list_fmap_ext.
    intros i l _. reflexivity.
Qed.

Lemma createLayout_frame (text : AttributedString Font) (maxWidth : float)
    (this : TextLayout Font) :
  createNativeLayout text (clearedLayout text maxWidth) = None ->
  Line_withoutX <$> lines (createLayout text maxWidth this)
  = Line_withoutX <$> snd (standardLines text (clearedLayout text maxWidth)).
Proof.
  intros Hnative. unfold createLayout. rewrite recalculateWidth_frame.
  unfold fillLayout. fold (clearedLayout text maxWidth). rewrite Hnative.
  unfold createStandardLayout, TokenList_createLayout.
  destruct (standardLines text (clearedLayout text maxWidth)) as [tokens built].
  cbn [lines snd]. apply justifyLines_frame.
Qed.

Lemma withoutX_map {A} (f : Line Font -> A) (a b : list (Line Font)) :
  (forall l, f (Line_withoutX l) = f l) ->
  Line_withoutX <$> a = Line_withoutX <$> b -> map f a = map f b.
Proof.
  intros Hf Heq.
  assert (Hc : forall l : list (Line Font), map f l = map f (Line_withoutX <$> l)).
  { intros l. rewrite <- list_fmap_compose. apply list_fmap_ext. intros i x _.
    simpl. symmetry. apply Hf. }
  rewrite (Hc a), (Hc b), Heq. reflexivity.
Qed.

Lemma content_map {A} (f : Token Font -> A) (a b : list (Token Font)) :
  (forall t, f (Token_content t) = f t) ->
  Token_content <$> a = Token_content <$> b -> map f a = map f b.
Proof.
  intros Hf Heq.
  assert (Hc : forall l : list (Token Font), map f l = map f (Token_content <$> l)).
  { intros l. rewrite <- list_fmap_compose. apply list_fmap_ext. intros i x _.
    simpl. symmetry. apply Hf. }
  rewrite (Hc a), (Hc b), Heq. reflexivity.
Qed.

Lemma standardLines_tokens (text : AttributedString Font) (layout : TextLayout Font) :
  Token_content <$> fst (standardLines text layout)
  = Token_content <$> addTextRuns text [].
Proof. unfold standardLines. simpl. apply layoutRuns_content. Qed.

Lemma totalAdvance_map (tokens : list (Token Font)) :
  totalAdvance tokens = fold_right Z.add 0 (map tokenAdvance tokens).
Proof. induction tokens as [|t rest IH]; simpl; [reflexivity | rewrite IH; reflexivity]. Qed.

(** X10: the layout holds the glyphs of the tokens of the text, in their
    order: the codes found along its lines and runs are the codes the
    font yields for the trimmed text of each token, none left out, none
    twice. *)
Theorem createLayout_glyph_codes (text : AttributedString Font) (maxWidth : float)
    (this : TextLayout Font) :
  createNativeLayout text (clearedLayout text maxWidth) = None ->
  linesCodes (lines (createLayout text maxWidth this))
  = concat (map shapedCodes (addTextRuns text [])).
Proof.
  intros Hnative. unfold linesCodes.
  rewrite (withoutX_map lineCodes _ _ (fun l => eq_refl)
             (createLayout_frame text maxWidth this Hnative)).
  rewrite <- (content_map shapedCodes _ _ (fun t => eq_refl)
                (standardLines_tokens text (clearedLayout text maxWidth))).
  unfold standardLines. cbn [fst snd].
  set (tokens := fst (layoutRuns (addTextRuns text []) 0
                                 (float_to_int (width (clearedLayout text maxWidth))))).
  pose proof (buildLines_codes tokens
                (mkBuilderState 0 0 0 None None true (lines (clearedLayout text maxWidth))))
    as Hcodes.
  assert (Hflushed : pendingCodes
                       (buildLines tokens
                          (mkBuilderState 0 0 0 None None true
                             (lines (clearedLayout text maxWidth)))) = []).
  { destruct tokens as [|t rest] eqn:Htokens; [reflexivity|].
    destruct (buildLines_flushed (t :: rest)
                (mkBuilderState 0 0 0 None None true (lines (clearedLayout text maxWidth)))
                ltac:(discriminate)) as [Hl Hr].
    unfold pendingCodes. rewrite Hl, Hr. reflexivity. }
  rewrite Hflushed, app_nil_r in Hcodes. exact Hcodes.
Qed.

(** X11: without overflow of [charPosition], the ranges of the lines follow
    one another from 0 to the sum of the advances of the tokens (one per
    glyph, one per white-space or line-break token), and the ranges of
    the runs of every line go from the start of the line to its end. *)
Theorem createLayout_ranges (text : AttributedString Font) (maxWidth : float)
    (this : TextLayout Font) :
  createNativeLayout text (clearedLayout text maxWidth) = None ->
  totalAdvance (addTextRuns text []) < 2 ^ 31 ->
  contiguous 0 (map line_stringRange (lines (createLayout text maxWidth this)))
             (totalAdvance (addTextRuns text []))
  /\ Forall runsFillLine (lines (createLayout text maxWidth this)).
Proof.
  intros Hnative Hbound.
  pose proof (createLayout_frame text maxWidth this Hnative) as Hframe.
  rewrite (withoutX_map line_stringRange _ _ (fun l => eq_refl) Hframe).
  assert (Hfill : Forall runsFillLine (snd (standardLines text (clearedLayout text maxWidth)))
                  -> Forall runsFillLine (lines (createLayout text maxWidth this))).
  { intros Hall. apply Forall_lookup_2. intros i l Hl.
    destruct (fmap_lookup_eq Line_withoutX _ _ i l Hframe Hl) as (l' & Hl' & Heq).
    pose proof (Forall_lookup_1 _ _ i l' Hall Hl') as Hfilled.
    unfold runsFillLine in *.
    change (line_stringRange l) with (line_stringRange (Line_withoutX l)).
    change (line_runs l) with (line_runs (Line_withoutX l)).
    rewrite Heq. exact Hfilled. }
  assert (Hadv : totalAdvance (fst (standardLines text (clearedLayout text maxWidth)))
                 = totalAdvance (addTextRuns text [])).
  { rewrite !totalAdvance_map.
    f_equal. apply (content_map tokenAdvance); [intros t; reflexivity|].
    apply standardLines_tokens. }
  rewrite <- Hadv in Hbound |- *.
  unfold standardLines in *. cbn [fst snd] in *.
  set (tokens := fst (layoutRuns (addTextRuns text []) 0
                                 (float_to_int (width (clearedLayout text maxWidth))))) in *.
  destruct tokens as [|t rest] eqn:Htokens.
  - simpl. split; [reflexivity | apply Hfill; constructor].
  - destruct (buildLines_ranges (t :: rest)
                (mkBuilderState 0 0 0 None None true (lines (clearedLayout text maxWidth)))
                ltac:(discriminate)) as [Hc Hf].
    + unfold rangesInvariant. simpl. repeat split; try lia. constructor.
    + simpl. exact Hbound.
    + split; [exact Hc | apply Hfill; exact Hf].
Qed.

End WholeLayout.

Section LineMetrics.
Context {Font : Type} `{FontMetrics Font} `{NativeBackend Font}.

Lemma coversFonts_fields (a b : Line Font) :
  ascent a = ascent b -> descent a = descent b -> line_runs a = line_runs b ->
  coversFonts b -> coversFonts a.
Proof. unfold coversFonts. intros -> -> ->. tauto. Qed.

Lemma coversFonts_addRun (line : Line Font) (run : Run Font) (t : Token Font) (s e : Z) :
  coversFonts line -> coversFonts (addRun line run t s e).
Proof.
  unfold coversFonts, addRun. simpl. intros (Ha & Hd & Hruns).
  destruct (jmax_float_spec (ascent line) (getAscent (tok_font t))) as (A1 & A2 & _).
  destruct (jmax_float_spec (descent line) (getDescent (tok_font t))) as (D1 & D2 & _).
  split; [lra|]. split; [lra|].
  apply Forall_app. split.
  - eapply Forall_impl; [exact Hruns|]. simpl. intros r [Hr1 Hr2]. split; lra.
  - constructor; [|constructor]. simpl. split; lra.
Qed.

Lemma coversFonts_new : coversFonts (Line_new : Line Font).
Proof. unfold coversFonts, Line_new. simpl. repeat split; try lra. constructor. Qed.

Lemma buildStep_metrics (t : Token Font) (nextToken : option (Token Font))
    (st : BuilderState) :
  Forall coversFonts (layoutLines st) ->
  coversFonts (default Line_new (currentLine st)) ->
  Forall coversFonts (layoutLines (buildStep t nextToken st))
  /\ coversFonts (default Line_new (currentLine (buildStep t nextToken st))).
Proof.
  intros Hlines Hcur.
  destruct (buildStep_shape t nextToken st)
    as (added & line1 & need1 & run1 & _ & Hruns & _ & [Hasc Hdesc] & _ & ->).
  assert (Hline1 : coversFonts line1)
    by (apply (coversFonts_fields _ _ Hasc Hdesc Hruns); exact Hcur).
  assert (Hclosed : forall (l : Line Font) (r : Range Z),
             coversFonts l ->
             Forall coversFonts (layoutLines st ++ [Line_setStringRange l r])).
  { intros l r Hl. apply Forall_app. split; [exact Hlines|].
    constructor; [exact Hl | constructor]. }
  destruct nextToken as [next|].
  - destruct (negb (bool_decide (tok_font t = tok_font next))
              || negb (tok_colour t =? tok_colour next));
      destruct (negb (tok_line t =? tok_line next));
      cbn [layoutLines currentLine from_option id];
      (split; [first [apply Hclosed | exact Hlines] | try apply coversFonts_new]);
      repeat apply coversFonts_addRun; exact Hline1.
  - cbn [layoutLines currentLine from_option id].
    split; [apply Hclosed, coversFonts_addRun, Hline1 | apply coversFonts_new].
Qed.

Lemma buildLines_metrics (tokens : list (Token Font)) :
  forall st : BuilderState,
    Forall coversFonts (layoutLines st) ->
    coversFonts (default Line_new (currentLine st)) ->
    Forall coversFonts (layoutLines (buildLines tokens st)).
Proof.
  induction tokens as [|t rest IH]; intros st Hlines Hcur; simpl; [exact Hlines|].
  destruct (buildStep_metrics t (head rest) st Hlines Hcur) as [Hl Hc].
  apply IH; assumption.
Qed.

(** X12: in a layout of the standard backend the ascent and the descent of
    every line are not negative and are at least those of the font of
    each run of the line. *)
Theorem createLayout_line_metrics (text : AttributedString Font) (maxWidth : float)
    (this : TextLayout Font) :
  createNativeLayout text (clearedLayout text maxWidth) = None ->
  Forall coversFonts (lines (createLayout text maxWidth this)).
Proof.
  intros Hnative.
  pose proof (createLayout_frame text maxWidth this Hnative) as Hframe.
  apply Forall_lookup_2. intros i l Hl.
  destruct (fmap_lookup_eq Line_withoutX _ _ i l Hframe Hl) as (l' & Hl' & Heq).
  injection Heq as _ _ Ha Hd _ Hr.
  apply (coversFonts_fields l l' Ha Hd Hr).
  revert Hl'. apply Forall_lookup_1.
  unfold standardLines. cbn [snd].
  apply buildLines_metrics; [constructor | apply coversFonts_new].
Qed.

End LineMetrics.

Section LayoutFacts.
Context {Font : Type} `{FontMetrics Font} `{NativeBackend Font}.

(** X13: a text of one character or none: the layout is the cleared one, with
    no line, the wrap width as its width, and no height. *)
Theorem createLayout_short_text (text : AttributedString Font) (maxWidth : float)
    (this : TextLayout Font) :
  String_length (getText text) <= 1 ->
  createNativeLayout text (clearedLayout text maxWidth) = None ->
  createLayout text maxWidth this = clearedLayout text maxWidth
  /\ getHeight_layout (createLayout text maxWidth this) = 0%Q.
Proof.
  intros Hlen Hnative.
  assert (Htokens : addTextRuns text [] = []).
  { unfold addTextRuns, runAttributesOf, String_length in *.
    destruct (String.length (getText text)) as [|[|n]]; [reflexivity|reflexivity|lia]. }
  assert (Hlayout : createLayout text maxWidth this = clearedLayout text maxWidth).
  { unfold createLayout, fillLayout. fold (clearedLayout text maxWidth). rewrite Hnative.
    unfold createStandardLayout, TokenList_createLayout, standardLines.
    rewrite Htokens. simpl. unfold justifyLines.
    destruct (negb _); reflexivity. }
  split; [exact Hlayout | rewrite Hlayout; reflexivity].
Qed.

Lemma getHeight_frame (a b : TextLayout Font) :
  Line_withoutX <$> lines a = Line_withoutX <$> lines b ->
  getHeight_layout a = getHeight_layout b.
Proof.
  intros Heq. unfold getHeight_layout.
  assert (Hlast : Line_withoutX <$> last (lines a) = Line_withoutX <$> last (lines b))
    by (rewrite <- !fmap_last, Heq; reflexivity).
  destruct (last (lines a)) as [la|], (last (lines b)) as [lb|];
    simpl in Hlast; try discriminate; [|reflexivity].
  injection Hlast as _ Hy _ Hd _ _.
  rewrite Hy, Hd. reflexivity.
Qed.

(** X15: justification and the normalisation of the width move lines sideways
    and do nothing else: but for the x of the origins, the lines of the
    layout are the lines the loop over the tokens has built, and the
    height of the layout is theirs. *)
Theorem createLayout_moves_only_x (text : AttributedString Font) (maxWidth : float)
    (this : TextLayout Font) :
  createNativeLayout text (clearedLayout text maxWidth) = None ->
  Line_withoutX <$> lines (createLayout text maxWidth this)
  = Line_withoutX <$> snd (standardLines text (clearedLayout text maxWidth))
  /\ getHeight_layout (createLayout text maxWidth this)
     = getHeight_layout
         (mkTextLayout (snd (standardLines text (clearedLayout text maxWidth)))
                       maxWidth (getJustification text)).
Proof.
  intros Hnative.
  pose proof (createLayout_frame text maxWidth this Hnative) as Hframe.
  split; [exact Hframe | apply getHeight_frame; exact Hframe].
Qed.

End LayoutFacts.

(** ** The style of the last character *)

Section FinalStyle.
Context {Font : Type} `{FontMetrics Font} `{NativeBackend Font}.

Lemma flushToken_app (cur : string) (font : Font) (colour : Colour) (ws : bool)
    (tokens : list (Token Font)) :
  flushToken cur font colour ws tokens = tokens ++ flushToken cur font colour ws [].
Proof.
  unfold flushToken. destruct (isNotEmpty cur); [reflexivity|].
  rewrite app_nil_r. reflexivity.
Qed.

(** [appendText] only adds to the end of the token list. *)
Lemma appendText_loop_app (font : Font) (colour : Colour) :
  forall (bound : nat) (t cur : string) (lastCharType : Z) (tokens : list (Token Font)),
    (String.length t <= bound)%nat ->
    appendText_loop font colour t cur lastCharType tokens
    = tokens ++ appendText_loop font colour t cur lastCharType [].
Proof.
  induction bound as [|bound IH]; intros t cur lastCharType tokens Hlen.
  - destruct t; [|simpl in Hlen; lia]. simpl. apply flushToken_app.
  - destruct t as [|c t']; simpl; [apply flushToken_app|].
    simpl in Hlen.
    destruct (Ascii.eqb c char_NUL); [apply flushToken_app|].
    destruct ((getCharacterType c =? 0) || negb (getCharacterType c =? lastCharType)).
    + assert (Hstep : forall (t2 cur2 : string) (ws : bool),
                 (String.length t2 <= bound)%nat ->
                 appendText_loop font colour t2 cur2 (getCharacterType c)
                                 (flushToken cur font colour ws tokens)
                 = tokens ++ appendText_loop font colour t2 cur2 (getCharacterType c)
                                             (flushToken cur font colour ws [])).
      { intros t2 cur2 ws Hlen2.
        rewrite (IH t2 cur2 _ (flushToken cur font colour ws tokens)) by exact Hlen2.
        rewrite (IH t2 cur2 _ (flushToken cur font colour ws [])) by exact Hlen2.
        rewrite (flushToken_app cur font colour ws tokens).
        rewrite <- app_assoc. reflexivity. }
      destruct t' as [|c2 t'']; [apply Hstep; simpl; lia|].
      destruct (Ascii.eqb c char_CR && Ascii.eqb c2 char_LF);
        apply Hstep; simpl in *; lia.
    + apply IH. lia.
Qed.

Lemma String_substring_nonempty (s : string) :
  forall n m : nat,
    (n < String.length s)%nat -> String.substring n (S m) s <> EmptyString.
Proof.
  induction s as [|c s IH]; intros n m Hn; simpl in Hn; [lia|].
  destruct n; simpl; [discriminate|]. apply IH. lia.
Qed.

Lemma substring_nonempty (s : string) (a b : Z) :
  0 <= a < b -> a < String_length s -> substring s a b <> EmptyString.
Proof.
  intros Hab Hlen. unfold substring. rewrite Z.max_r by lia.
  destruct (b <=? a) eqn:Hle; [apply Z.leb_le in Hle; lia|].
  destruct (Z.to_nat (b - a)) as [|m] eqn:Hm; [lia|].
  apply String_substring_nonempty. unfold String_length in Hlen. lia.
Qed.

Lemma string_last (s : string) :
  s <> EmptyString -> exists before c, s = (before ++ String c EmptyString)%string.
Proof.
  induction s as [|c s IH]; [congruence|]. intros _.
  destruct s as [|c2 s2]; [exists EmptyString, c; reflexivity|].
  destruct IH as (before & c' & Heq); [discriminate|].
  exists (String c before), c'. simpl. rewrite <- Heq. reflexivity.
Qed.

Lemma tokenShape_nonempty (t : Token Font) : tokenShape t -> tok_text t <> EmptyString.
Proof.
  intros [[Hbreak _] | [[Hne _] | [Hne _]]]; [|exact Hne|exact Hne].
  destruct Hbreak as [-> | [-> | ->]]; discriminate.
Qed.

Lemma contiguous_snoc_inv (rs : list (Range Z)) (r : Range Z) (stop : Z) :
  forall start : Z,
    contiguous start (rs ++ [r]) stop ->
    contiguous start rs (getStart r) /\ start <= getStart r
    /\ getStart r <= getEnd r /\ getEnd r = stop.
Proof.
  induction rs as [|x rs IH]; intros start; simpl.
  - intros (Hs & Hle & He). repeat split; lia.
  - intros (Hs & Hle & Hrest). destruct (IH _ Hrest) as (Hc & Hge & Hr & He).
    split; [split; [exact Hs | split; [exact Hle | exact Hc]]|].
    split; [lia|]. split; assumption.
Qed.

(** The last token is dealt with by the branch of the loop that has no
    next token. *)
Lemma buildLines_snoc (tokens : list (Token Font)) :
  forall (st : BuilderState) (tok : Token Font),
    exists st' : BuilderState,
      buildLines (tokens ++ [tok]) st = buildStep tok None st'.
Proof.
  induction tokens as [|t rest IH]; intros st tok; simpl.
  - exists st. reflexivity.
  - apply IH.
Qed.

(** The last token of a text of two characters or more ends with the last
    character of the text and has the font and the colour in force one
    character earlier. *)
Lemma addTextRuns_last_token (text : AttributedString Font) :
  2 <= String_length (getText text) ->
  containsChar (getText text) char_NUL = false ->
  exists (front : list (Token Font)) (tok : Token Font),
    addTextRuns text [] = front ++ [tok]
    /\ (exists (before : string) (c : ascii),
          tok_text tok = (before ++ String c EmptyString)%string
          /\ getText text = (tokensText front ++ before ++ String c EmptyString)%string)
    /\ Some (tok_font tok)
       = fc_font (effectiveStyle text (String_length (getText text) - 2))
    /\ tok_colour tok
       = fc_colour (effectiveStyle text (String_length (getText text) - 2)).
Proof.
  intros Hlen Hnul.
  set (len := String_length (getText text)) in *.
  assert (Hruns : exists earlier rs,
             runAttributesOf text
             = earlier ++ [mkRunAttribute (effectiveStyle text (len - 2)) (mkRange rs len)]
             /\ rs <= len - 2).
  { unfold runAttributesOf. fold len.
    apply scanStyles_last; unfold len, String_length in *; try lia. }
  destruct Hruns as (earlier & rs & Hruns & Hrs).
  assert (Hcont : contiguous 0 (map ra_range (runAttributesOf text)) len).
  { unfold runAttributesOf. fold len.
    apply (scanStyles_ranges text len); unfold len, String_length in *; try lia.
    - reflexivity.
    - constructor. }
  assert (Hfonts : Forall (fun r => is_Some (fc_font (ra_fontAndColour r)))
                          (runAttributesOf text)).
  { unfold runAttributesOf. apply scanStyles_fonts; [constructor | lia]. }
  assert (Hwhole : tokensText (addTextRuns text []) = getText text).
  { unfold addTextRuns.
    rewrite (appendRunAttributes_text text Hnul _ 0 len);
      [apply substring_all | lia | exact Hcont | exact Hfonts]. }
  assert (Hshapes : Forall tokenShape (addTextRuns text [])).
  { apply appendRunAttributes_shape. constructor. }
  rewrite Hruns in Hcont, Hfonts. rewrite map_app in Hcont.
  apply contiguous_snoc_inv in Hcont. simpl in Hcont.
  destruct Hcont as (Hcont & Hrs0 & _ & _).
  apply Forall_app in Hfonts. destruct Hfonts as [Hfonts _].
  destruct (effectiveStyle_font text (len - 2)) as [font Hfont].
  set (sub := substring (getText text) rs len).
  set (colour := fc_colour (effectiveStyle text (len - 2))).
  set (toks0 := fold_left (appendRunAttribute text) earlier []).
  set (added := appendText_loop font colour sub EmptyString 0 []).
  assert (Hall : addTextRuns text [] = toks0 ++ added).
  { unfold addTextRuns. rewrite Hruns, fold_left_app. fold toks0. simpl.
    unfold appendRunAttribute. simpl. rewrite Hfont. unfold appendText. simpl.
    fold sub colour. apply (appendText_loop_app font colour (String.length sub)). lia. }
  assert (Hsubnul : containsChar sub char_NUL = false)
    by (apply substring_no_char; exact Hnul).
  assert (Hadded : tokensText added = sub).
  { unfold added.
    rewrite (appendText_loop_text font colour (String.length sub)) by (lia || exact Hsubnul).
    reflexivity. }
  assert (Hsub : sub <> EmptyString)
    by (apply substring_nonempty; unfold len in *; lia).
  assert (Hne : added <> []).
  { intros Hnil. rewrite Hnil in Hadded. simpl in Hadded. congruence. }
  destruct (exists_last Hne) as (front' & tok & Hlast).
  exists (toks0 ++ front'), tok.
  assert (Hlist : addTextRuns text [] = (toks0 ++ front') ++ [tok]).
  { rewrite Hall, Hlast, app_assoc. reflexivity. }
  split; [exact Hlist|].
  assert (Hin : In tok added) by (rewrite Hlast; apply in_or_app; right; left; reflexivity).
  split.
  - rewrite Hlist in Hshapes, Hwhole.
    apply Forall_app in Hshapes. destruct Hshapes as [_ Hshape].
    apply Forall_inv in Hshape. apply tokenShape_nonempty in Hshape.
    destruct (string_last _ Hshape) as (before & c & Htok).
    exists before, c. split; [exact Htok|].
    rewrite tokensText_app in Hwhole. simpl in Hwhole.
    rewrite string_app_nil_r, Htok in Hwhole. symmetry. exact Hwhole.
  - unfold added in Hin.
    destruct (appendText_loop_style font colour tok (String.length sub) sub EmptyString 0 []
                (Nat.le_refl _) Hin) as [[]|[Hf Hc]].
    rewrite Hf, Hc, Hfont. split; reflexivity.
Qed.

(** What the loop over the tokens makes of the last token, as it stands in
    the finished layout: the last run of the last line has its font and its
    colour, and ends with its glyphs. *)
Lemma createLayout_last_run (text : AttributedString Font) (maxWidth : float)
    (this : TextLayout Font) (front : list (Token Font)) (tok : Token Font) :
  createNativeLayout text (clearedLayout text maxWidth) = None ->
  addTextRuns text [] = front ++ [tok] ->
  exists (linesBefore : list (Line Font)) (line : Line Font)
         (runsBefore : list (Run Font)) (run : Run Font) (codesBefore : list Z),
    lines (createLayout text maxWidth this) = linesBefore ++ [line]
    /\ line_runs line = runsBefore ++ [run]
    /\ run_font run = tok_font tok
    /\ run_colour run = tok_colour tok
    /\ map glyphCode (run_glyphs run) = codesBefore ++ shapedCodes tok.
Proof.
  intros Hnative Htoks.
  pose proof (createLayout_frame text maxWidth this Hnative) as Hframe.
  pose proof (standardLines_tokens text (clearedLayout text maxWidth)) as Hcontent.
  rewrite Htoks, fmap_app in Hcontent.
  apply fmap_app_inv in Hcontent. destruct Hcontent as (placed & lastOne & _ & Hlast & Hsplit).
  destruct lastOne as [|tok' [|more rest]]; try discriminate.
  assert (Htok : Token_content tok = Token_content tok')
    by (apply (f_equal head) in Hlast; simpl in Hlast; congruence).
  unfold standardLines in Hframe, Hsplit. cbn [fst snd] in Hframe, Hsplit.
  rewrite Hsplit in Hframe.
  destruct (buildLines_snoc placed
              (mkBuilderState 0 0 0 None None true (lines (clearedLayout text maxWidth)))
              tok') as [st' Hst'].
  rewrite Hst' in Hframe.
  destruct (buildStep_shape tok' None st')
    as (added & line1 & need1 & run1 & Hcodes & _ & _ & _ & Hglyphs & Hstep).
  rewrite Hstep in Hframe. cbn [layoutLines] in Hframe.
  rewrite fmap_app in Hframe.
  apply fmap_app_inv in Hframe. destruct Hframe as (before & final & _ & Hfinal & Hlines).
  destruct final as [|line' [|more rest]]; try discriminate.
  pose proof (f_equal (fun l => line_runs <$> head l) Hfinal) as Hline.
  simpl in Hline. injection Hline as Hline.
  pose proof (f_equal tok_font Htok) as Hfont.
  pose proof (f_equal tok_colour Htok) as Hcolour.
  pose proof (f_equal tok_text Htok) as Htext.
  simpl in Hfont, Hcolour, Htext.
  eexists before, line', (line_runs line1), _,
          (map glyphCode (run_glyphs (default Run_new (currentRun st')))).
  split; [exact Hlines|]. split; [symmetry; exact Hline|].
  simpl. split; [symmetry; exact Hfont|]. split; [symmetry; exact Hcolour|].
  rewrite Hglyphs, map_app, Hcodes. unfold shapedCodes. rewrite <- Hfont, <- Htext.
  reflexivity.
Qed.

(** C10: for a text of two characters or more, the last range the scan
    emits ends at the end of the string, starts at or before the last but
    one character and carries the style in force at that character.  The
    last character is then tokenized in that style: the last token ends
    with it and has that font and colour; and it is laid out in that
    style: the last run of the last line of the layout has that font and
    colour and ends with the glyphs of that token.  For a text of one
    character the scan emits nothing, and the standard layout has no
    line. *)
Theorem final_style_range (text : AttributedString Font) (maxWidth : float)
    (this : TextLayout Font) :
  (2 <= String_length (getText text) ->
   exists (earlier : list (RunAttribute Font)) (r : RunAttribute Font),
     runAttributesOf text = earlier ++ [r]
     /\ getStart (ra_range r) <= String_length (getText text) - 2
     /\ getEnd (ra_range r) = String_length (getText text)
     /\ ra_fontAndColour r = effectiveStyle text (String_length (getText text) - 2)
     /\ (containsChar (getText text) char_NUL = false ->
         exists (front : list (Token Font)) (tok : Token Font),
           addTextRuns text [] = front ++ [tok]
           /\ (exists (before : string) (c : ascii),
                 tok_text tok = (before ++ String c EmptyString)%string
                 /\ getText text
                    = (tokensText front ++ before ++ String c EmptyString)%string)
           /\ Some (tok_font tok) = fc_font (ra_fontAndColour r)
           /\ tok_colour tok = fc_colour (ra_fontAndColour r)
           /\ (createNativeLayout text (clearedLayout text maxWidth) = None ->
               exists (linesBefore : list (Line Font)) (line : Line Font)
                      (runsBefore : list (Run Font)) (run : Run Font)
                      (codesBefore : list Z),
                 lines (createLayout text maxWidth this) = linesBefore ++ [line]
                 /\ line_runs line = runsBefore ++ [run]
                 /\ Some (run_font run) = fc_font (ra_fontAndColour r)
                 /\ run_colour run = fc_colour (ra_fontAndColour r)
                 /\ map glyphCode (run_glyphs run) = codesBefore ++ shapedCodes tok)))
  /\ (String_length (getText text) = 1 ->
      runAttributesOf text = []
      /\ (createNativeLayout text (clearedLayout text maxWidth) = None ->
          lines (createLayout text maxWidth this) = [])).
Proof.
  split.
  - intros Hlen.
    destruct (scanStyles_last text (String_length (getText text))
                (String.length (getText text)) 0 0
                (mkFontAndColour None defaultColour) [])
      as (earlier & rs & Hscan & Hrs); unfold String_length in *; try lia.
    exists earlier, (mkRunAttribute
                       (effectiveStyle text (Z.of_nat (String.length (getText text)) - 2))
                       (mkRange rs (Z.of_nat (String.length (getText text))))).
    split; [exact Hscan|]. cbn [ra_range ra_fontAndColour getStart getEnd].
    split; [lia|]. split; [reflexivity|]. split; [reflexivity|].
    intros Hnul.
    destruct (addTextRuns_last_token text Hlen Hnul)
      as (front & tok & Htoks & Hchar & Hfont & Hcolour).
    exists front, tok. split; [exact Htoks|]. split; [exact Hchar|].
    split; [exact Hfont|]. split; [exact Hcolour|].
    intros Hnative.
    destruct (createLayout_last_run text maxWidth this front tok Hnative Htoks)
      as (linesBefore & line & runsBefore & run & codesBefore
          & Hlines & Hruns & Hrf & Hrc & Hcodes).
    exists linesBefore, line, runsBefore, run, codesBefore.
    split; [exact Hlines|]. split; [exact Hruns|].
    rewrite Hrf, Hrc. split; [exact Hfont|]. split; [exact Hcolour | exact Hcodes].
  - intros Hlen.
    assert (Hruns : runAttributesOf text = []).
    { unfold runAttributesOf, String_length in *.
      destruct (String.length (getText text)) as [|[|n]]; try lia. reflexivity. }
    split; [exact Hruns|].
    intros Hnative. unfold createLayout.
    assert (Hfill : lines (fillLayout text maxWidth) = []).
    { unfold fillLayout. unfold clearedLayout in Hnative. rewrite Hnative.
      unfold createStandardLayout, TokenList_createLayout, standardLines, addTextRuns.
      rewrite Hruns. simpl. unfold justifyLines.
      destruct (negb _); reflexivity. }
    rewrite recalculateWidth_no_lines by exact Hfill. exact Hfill.
Qed.

End FinalStyle.

(** "ab" with the font 20 on its second letter: the style of the last
    character is lost.  One range, one token and one run take both
    letters in the font 10 of the first. *)
Example lastCharStyled_layout :
  fc_font (effectiveStyle FixedPitch.lastCharStyled 1) = Some 20
  /\ map (fun line => map (fun run => (run_font run, map glyphCode (run_glyphs run)))
                          (line_runs line))
         (lines (createLayout FixedPitch.lastCharStyled 1000 FixedPitch.emptyLayout))
     = [[(10, [97; 98])]].
Proof. vm_compute. repeat split; reflexivity. Qed.

Lemma final_style_range_witness :
  exists (earlier : list (RunAttribute FixedPitch.Font)) (r : RunAttribute FixedPitch.Font)
         (front : list (Token FixedPitch.Font)) (tok : Token FixedPitch.Font)
         (linesBefore : list (Line FixedPitch.Font)) (line : Line FixedPitch.Font)
         (runsBefore : list (Run FixedPitch.Font)) (run : Run FixedPitch.Font)
         (codesBefore : list Z),
    runAttributesOf FixedPitch.lastCharStyled = earlier ++ [r]
    /\ getEnd (ra_range r) = String_length (getText FixedPitch.lastCharStyled)
    /\ ra_fontAndColour r
       = effectiveStyle FixedPitch.lastCharStyled
           (String_length (getText FixedPitch.lastCharStyled) - 2)
    /\ addTextRuns FixedPitch.lastCharStyled [] = front ++ [tok]
    /\ Some (tok_font tok) = fc_font (ra_fontAndColour r)
    /\ tok_colour tok = fc_colour (ra_fontAndColour r)
    /\ lines (createLayout FixedPitch.lastCharStyled 1000 FixedPitch.emptyLayout)
       = linesBefore ++ [line]
    /\ line_runs line = runsBefore ++ [run]
    /\ Some (run_font run) = fc_font (ra_fontAndColour r)
    /\ run_colour run = fc_colour (ra_fontAndColour r)
    /\ map glyphCode (run_glyphs run) = codesBefore ++ shapedCodes tok.
Proof.
  destruct (proj1 (final_style_range FixedPitch.lastCharStyled 1000 FixedPitch.emptyLayout))
    as (earlier & r & Hruns & _ & Hend & Hstyle & Htokens);
    [vm_compute; discriminate|].
  destruct (Htokens eq_refl) as (front & tok & Htoks & _ & Hfont & Hcolour & Hlayout).
  destruct (Hlayout eq_refl)
    as (linesBefore & line & runsBefore & run & codesBefore
        & Hlines & Hlast & Hrf & Hrc & Hcodes).
  exists earlier, r, front, tok, linesBefore, line, runsBefore, run, codesBefore.
  repeat split; assumption.
Defined.

(** ** Drawing *)

Section DrawFacts.
Context {Font : Type} `{FontMetrics Font} `{Placement}.

Lemma painted_glyphs (lineOrigin : Point) :
  forall (glyphs : list Glyph) (rest : list (DrawCall Font)) (font : option Font)
         (fill : option Colour),
    painted (map (fun glyph =>
                    DrawGlyph (glyphCode glyph)
                              (pt_x lineOrigin + pt_x (anchor glyph))%Q
                              (pt_y lineOrigin + pt_y (anchor glyph))%Q) glyphs ++ rest)
            font fill
    = map (fun glyph =>
             (font, fill, glyphCode glyph,
              (pt_x lineOrigin + pt_x (anchor glyph))%Q,
              (pt_y lineOrigin + pt_y (anchor glyph))%Q)) glyphs
      ++ painted rest font fill.
Proof.
  induction glyphs as [|g glyphs IH]; intros rest font fill; simpl; [reflexivity|].
  rewrite IH. reflexivity.
Qed.

Lemma painted_runs (lineOrigin : Point) :
  forall (runs : list (Run Font)) (rest : list (DrawCall Font)) (font : option Font)
         (fill : option Colour),
  exists font' fill',
    painted (concat (map (drawRun lineOrigin) runs) ++ rest) font fill
    = concat (map (fun run =>
                     map (fun glyph =>
                            (Some (run_font run), Some (run_colour run), glyphCode glyph,
                             (pt_x lineOrigin + pt_x (anchor glyph))%Q,
                             (pt_y lineOrigin + pt_y (anchor glyph))%Q))
                         (run_glyphs run)) runs)
      ++ painted rest font' fill'.
Proof.
  induction runs as [|run runs IH]; intros rest font fill; simpl.
  - exists font, fill. reflexivity.
  - rewrite <- app_assoc, painted_glyphs.
    destruct (IH rest (Some (run_font run)) (Some (run_colour run))) as (f' & c' & Heq).
    exists f', c'. rewrite Heq, app_assoc. reflexivity.
Qed.

Lemma painted_lines (origin : Point) :
  forall (ls : list (Line Font)) (font : option Font) (fill : option Colour),
    painted (concat (map (drawLine origin) ls)) font fill
    = glyphsAt origin ls.
Proof.
  unfold glyphsAt.
  induction ls as [|line ls IH]; intros font fill; simpl; [reflexivity|].
  unfold drawLine at 1.
  destruct (painted_runs (Point_add origin (lineOrigin line)) (line_runs line)
              (concat (map (drawLine origin) ls)) font fill) as (f' & c' & Heq).
  rewrite Heq, IH. reflexivity.
Qed.

(** X16: whatever font and fill the context starts with, [draw] paints the
    glyphs of the layout in the order of its lines, runs and glyphs, each
    one with the font and the colour of its run, at the placement origin
    plus the origin of its line plus its anchor. *)
Theorem draw_paints_glyphs (this : TextLayout Font) (area : RectangleF)
    (font : option Font) (fill : option Colour) :
  painted (draw this area) font fill
  = glyphsAt (appliedPosition (justification this)
                              (mkRectangleF 0 0 (width this) (getHeight_layout this)) area)
             (lines this).
Proof. unfold draw. rewrite painted_lines. reflexivity. Qed.

End DrawFacts.

(** ** The fixed-pitch platform

    The properties above that have a precondition, on the three words of
    [FixedPitch.styledWords] wrapped at 50 pixels, on ten centred letters
    and on a text of one letter. *)

Lemma runAttributes_partition_witness :
  contiguous 0 (map ra_range (runAttributesOf FixedPitch.styledWords))
             (String_length (getText FixedPitch.styledWords))
  /\ Forall (fun r => getStart (ra_range r) < getEnd (ra_range r)
                      /\ forall k, getStart (ra_range r) <= k < getEnd (ra_range r) ->
                                   k < String_length (getText FixedPitch.styledWords) - 1 ->
                                   effectiveStyle FixedPitch.styledWords k
                                   = ra_fontAndColour r)
            (runAttributesOf FixedPitch.styledWords).
Proof.
  apply (runAttributes_partition FixedPitch.styledWords).
  vm_compute. discriminate.
Defined.

Lemma createLayout_glyph_codes_witness :
  linesCodes (lines (createLayout FixedPitch.styledWords 50 FixedPitch.emptyLayout))
  = concat (map shapedCodes (addTextRuns FixedPitch.styledWords [])).
Proof.
  apply (createLayout_glyph_codes FixedPitch.styledWords 50 FixedPitch.emptyLayout).
  reflexivity.
Defined.

Lemma createLayout_ranges_witness :
  contiguous 0
    (map line_stringRange
         (lines (createLayout FixedPitch.styledWords 50 FixedPitch.emptyLayout)))
    (totalAdvance (addTextRuns FixedPitch.styledWords []))
  /\ Forall runsFillLine
            (lines (createLayout FixedPitch.styledWords 50 FixedPitch.emptyLayout)).
Proof.
  apply (createLayout_ranges FixedPitch.styledWords 50 FixedPitch.emptyLayout).
  - reflexivity.
  - vm_compute. reflexivity.
Defined.

Lemma createLayout_line_metrics_witness :
  Forall coversFonts
         (lines (createLayout FixedPitch.styledWords 50 FixedPitch.emptyLayout)).
Proof.
  apply (createLayout_line_metrics FixedPitch.styledWords 50 FixedPitch.emptyLayout).
  reflexivity.
Defined.

Lemma createLayout_moves_only_x_witness :
  Line_withoutX <$> lines (createLayout (FixedPitch.centredText natural) 200
                                        FixedPitch.emptyLayout)
  = Line_withoutX <$> snd (standardLines (FixedPitch.centredText natural)
                             (clearedLayout (FixedPitch.centredText natural) 200))
  /\ getHeight_layout (createLayout (FixedPitch.centredText natural) 200
                                    FixedPitch.emptyLayout)
     = getHeight_layout
         (mkTextLayout (snd (standardLines (FixedPitch.centredText natural)
                               (clearedLayout (FixedPitch.centredText natural) 200)))
                       200 (getJustification (FixedPitch.centredText natural))).
Proof.
  apply (createLayout_moves_only_x (FixedPitch.centredText natural) 200
                                   FixedPitch.emptyLayout).
  reflexivity.
Defined.


Lemma createLayout_short_text_witness :
  createLayout (FixedPitch.plainText "a") 1000 FixedPitch.emptyLayout
  = clearedLayout (FixedPitch.plainText "a") 1000
  /\ getHeight_layout (createLayout (FixedPitch.plainText "a") 1000
                                    FixedPitch.emptyLayout) = 0%Q.
Proof.
  apply (createLayout_short_text (FixedPitch.plainText "a") 1000 FixedPitch.emptyLayout).
  - vm_compute. discriminate.
  - reflexivity.
Defined.
